(** * Waveform LUT construction ([waveforms.py])

    The module under study builds one period of a square wave or of a
    Gaussian pulse pair as a lookup table: a uniform time axis, raw samples,
    peak normalisation and clipping.

    Number model.  A Python/numpy float is a finite real, an infinity or
    NaN.  Operations on finite values are exact real arithmetic (IEEE
    rounding, overflow, underflow and the sign of zero are outside the
    model); operations that meet an infinity or NaN follow IEEE 754 as numpy
    applies it.  Integers are [Z], arrays are lists, strings are ASCII
    strings.

    Layout: the embedding of the source over [float]; the same functions
    over the finite reals ([Module Exact]), which the embedding agrees with
    on finite inputs; then the properties. *)

From Stdlib Require Import Reals Lra Lia List String Ascii ZArith Bool Arith.
Import ListNotations.

Open Scope R_scope.

(** ** Exceptions and results *)

(** One constructor per [raise ValueError(...)] site of [waveforms.py]. *)
Inductive ValueError : Type :=
| N_must_be_positive              (* "N must be positive" *)
| T_rep_s_must_be_finite_positive (* "T_rep_s must be finite and > 0" *)
| Waveform_peak_zero_or_nonfinite (* "Waveform peak is zero or non-finite; cannot normalize." *)
| Unsupported_normalize_strategy  (* "Unsupported normalize strategy: ..." *)
| f_rep_hz_must_be_finite_positive (* "f_rep_hz must be finite and > 0" *)
| duty_must_be_in_0_1.            (* "duty must be in [0, 1]" *)

(** Python exceptions the module can leave through. *)
Inductive exn : Type :=
| EValueError (v : ValueError)
| ZeroDivisionError.

(** The two error kinds of the specification. *)
Inductive ErrorKind : Type := InvalidArgument | NormalizationError.

(** The degenerate-peak error is the normalisation error; every other
    [ValueError] reports a malformed argument.  [ZeroDivisionError] is
    neither. *)
Definition kind_of (e : exn) : option ErrorKind :=
  match e with
  | EValueError Waveform_peak_zero_or_nonfinite => Some NormalizationError
  | EValueError _ => Some InvalidArgument
  | ZeroDivisionError => None
  end.

Inductive result (A : Type) : Type :=
| Ok (a : A)
| Raise (e : exn).
Arguments Ok {A} a.
Arguments Raise {A} e.

Definition bind {A B : Type} (r : result A) (k : A -> result B) : result B :=
  match r with
  | Ok a => k a
  | Raise e => Raise e
  end.

Notation "x <- r ;; k" := (bind r (fun x => k))
  (at level 61, r at next level, right associativity).

Definition result_map {A B : Type} (f : A -> B) (r : result A) : result B :=
  match r with
  | Ok a => Ok (f a)
  | Raise e => Raise e
  end.

Definition fails_with {A : Type} (r : result A) (k : ErrorKind) : Prop :=
  exists e, r = Raise e /\ kind_of e = Some k.

(** ** Floats *)

Definition Rltb (x y : R) : bool := if Rlt_dec x y then true else false.
Definition Rleb (x y : R) : bool := if Rle_dec x y then true else false.
Definition Reqb (x y : R) : bool := if Req_dec_T x y then true else false.

(** [Inf false] is [+inf], [Inf true] is [-inf]. *)
Inductive float : Type :=
| Fin (r : R)
| Inf (negative : bool)
| NaN.

Definition isfinite (x : float) : bool :=
  match x with
  | Fin _ => true
  | _ => false
  end.

Definition fneg (x : float) : float :=
  match x with
  | Fin r => Fin (- r)
  | Inf s => Inf (negb s)
  | NaN => NaN
  end.

Definition fabs (x : float) : float :=
  match x with
  | Fin r => Fin (Rabs r)
  | Inf _ => Inf false
  | NaN => NaN
  end.

Definition fadd (x y : float) : float :=
  match x, y with
  | NaN, _ | _, NaN => NaN
  | Fin a, Fin b => Fin (a + b)
  | Inf s, Fin _ | Fin _, Inf s => Inf s
  | Inf s, Inf s' => if Bool.eqb s s' then Inf s else NaN
  end.

Definition fsub (x y : float) : float := fadd x (fneg y).

Definition fmul (x y : float) : float :=
  match x, y with
  | NaN, _ | _, NaN => NaN
  | Fin a, Fin b => Fin (a * b)
  | Inf s, Fin r | Fin r, Inf s =>
      if Reqb r 0 then NaN else Inf (xorb s (Rltb r 0))
  | Inf s, Inf s' => Inf (xorb s s')
  end.

(** numpy division: a finite value over zero is an infinity, zero over zero
    is NaN.  The zero divisor is read as [+0.0]; the one division of the
    module that can meet a zero divisor is squared right away. *)
Definition fdiv (x y : float) : float :=
  match x, y with
  | NaN, _ | _, NaN => NaN
  | Fin a, Fin b =>
      if Reqb b 0 then (if Reqb a 0 then NaN else Inf (Rltb a 0))
      else Fin (a / b)
  | Fin _, Inf _ => Fin 0
  | Inf s, Fin r => Inf (xorb s (Rltb r 0))
  | Inf _, Inf _ => NaN
  end.

Definition fexp (x : float) : float :=
  match x with
  | Fin r => Fin (exp r)
  | Inf false => Inf false
  | Inf true => Fin 0
  | NaN => NaN
  end.

(** Comparisons; any comparison with NaN is false. *)
Definition flt (x y : float) : bool :=
  match x, y with
  | NaN, _ | _, NaN => false
  | Fin a, Fin b => Rltb a b
  | Fin _, Inf s => negb s
  | Inf s, Fin _ => s
  | Inf s, Inf s' => s && negb s'
  end.

Definition fle (x y : float) : bool :=
  match x, y with
  | NaN, _ | _, NaN => false
  | Fin a, Fin b => Rleb a b
  | Fin _, Inf s => negb s
  | Inf s, Fin _ => s
  | Inf s, Inf s' => s || negb s'
  end.

Definition feq (x y : float) : bool :=
  match x, y with
  | Fin a, Fin b => Reqb a b
  | Inf s, Inf s' => Bool.eqb s s'
  | _, _ => false
  end.

(** [np.maximum] and [np.minimum]: NaN wins. *)
Definition fmaximum (x y : float) : float :=
  match x, y with
  | NaN, _ | _, NaN => NaN
  | _, _ => if fle x y then y else x
  end.

Definition fminimum (x y : float) : float :=
  match x, y with
  | NaN, _ | _, NaN => NaN
  | _, _ => if fle x y then x else y
  end.

(** ** The numpy operations the module calls *)

Module np.

(** [np.linspace(start, stop, num, endpoint)]: [div] is [num - 1] with the
    end point and [num] without it; the samples are [k * step + start] with
    [step = (stop - start) / div] when [div > 0], and [k * (stop - start) +
    start] for [k < num] when [div = 0]; with the end point and more than
    one sample the last one is overwritten with [stop].  (For a step of zero
    numpy computes [k / div * delta] instead, the same value.) *)
Definition linspace (start stop : float) (num : nat) (endpoint : bool)
  : list float :=
  let div := if endpoint then (num - 1)%nat else num in
  let delta := fsub stop start in
  let y k :=
    if (0 <? div)%nat
    then fadd (fmul (Fin (INR k)) (fdiv delta (Fin (INR div)))) start
    else fadd (fmul (Fin (INR k)) delta) start in
  map (fun k =>
         if endpoint && (1 <? num)%nat && (k =? num - 1)%nat then stop
         else y k)
      (seq 0 num).

Definition abs (a : list float) : list float := map fabs a.

(** [np.max] of a non-empty array (NaN wins); the source guards the call
    with [wave.size], the value on [[]] is never used. *)
Definition max (a : list float) : float :=
  match a with
  | [] => Fin 0
  | x :: xs => fold_left fmaximum xs x
  end.

(** [np.clip(a, lo, hi)] is [minimum(maximum(a, lo), hi)]. *)
Definition clip (a : list float) (lo hi : float) : list float :=
  map (fun x => fminimum (fmaximum x lo) hi) a.

(** [np.where(t_s < bound, x, y)] with scalar [x], [y]. *)
Definition where_lt (t_s : list float) (bound x y : float) : list float :=
  map (fun t => if flt t bound then x else y) t_s.

Definition zeros_like (a : list float) : list float := map (fun _ => Fin 0) a.

(** Elementwise sum of two arrays of one shape ([wave += pulse]). *)
Fixpoint add (a b : list float) : list float :=
  match a, b with
  | x :: a', y :: b' => fadd x y :: add a' b'
  | _, _ => []
  end.

(** [a / c] with a scalar divisor. *)
Definition divide (a : list float) (c : float) : list float :=
  map (fun x => fdiv x c) a.

End np.

(** ** Python [str.lower] and [str.strip] on ASCII strings *)

Definition lower_ascii (c : ascii) : ascii :=
  let n := nat_of_ascii c in
  if ((65 <=? n) && (n <=? 90))%nat then ascii_of_nat (n + 32) else c.

Fixpoint lower (s : string) : string :=
  match s with
  | EmptyString => EmptyString
  | String c r => String (lower_ascii c) (lower r)
  end.

(** [str.isspace] on ASCII: TAB, LF, VT, FF, CR, FS, GS, RS, US, space. *)
Definition isspace (c : ascii) : bool :=
  let n := nat_of_ascii c in
  (((9 <=? n) && (n <=? 13)) || ((28 <=? n) && (n <=? 32)))%nat.

Fixpoint lstrip (s : string) : string :=
  match s with
  | EmptyString => EmptyString
  | String c r => if isspace c then lstrip r else s
  end.

Fixpoint rstrip (s : string) : string :=
  match s with
  | EmptyString => EmptyString
  | String c r =>
      match rstrip r with
      | EmptyString => if isspace c then EmptyString else String c EmptyString
      | r' => String c r'
      end
  end.

Definition strip (s : string) : string := rstrip (lstrip s).

(** ** [make_time_axis] *)

Definition make_time_axis (T_rep_s : float) (N : Z) (endpoint : bool)
  : result (list float) :=
  if (N <=? 0)%Z then Raise (EValueError N_must_be_positive)
  else if negb (isfinite T_rep_s) || fle T_rep_s (Fin 0)
  then Raise (EValueError T_rep_s_must_be_finite_positive)
  else Ok (np.linspace (Fin 0) T_rep_s (Z.to_nat N) endpoint).

(** ** [waveform_to_lut] *)

(** [float(np.max(np.abs(wave))) if wave.size else 0.0] *)
Definition peak_of (wave : list float) : float :=
  match wave with
  | [] => Fin 0
  | _ => np.max (np.abs wave)
  end.

Definition waveform_to_lut (wave : list float) (normalize : string)
    (clip : bool)
  : result (list float) :=
  let strategy := strip (lower normalize) in
  lut <- (if String.eqb strategy "peak" then
            let peak := peak_of wave in
            if negb (isfinite peak) || fle peak (Fin 0)
            then Raise (EValueError Waveform_peak_zero_or_nonfinite)
            else Ok (np.divide wave peak)
          else if String.eqb strategy "none" || String.eqb strategy "off"
                  || String.eqb strategy "false"
          then Ok wave
          else Raise (EValueError Unsupported_normalize_strategy)) ;;
  Ok (if clip then np.clip lut (Fin (-1)) (Fin 1) else lut).

(** ** [gaussian_pulse] *)

(** [amp * exp(-0.5 * ((t - t_center) / sigma) ** 2)] at one sample; the
    square is the product of the quotient with itself. *)
Definition gaussian_at (t t_center_s sigma_s amp : float) : float :=
  let q := fdiv (fsub t t_center_s) sigma_s in
  fmul amp (fexp (fmul (Fin (- (1 / 2))) (fmul q q))).

Definition gaussian_pulse (t_s : list float) (t_center_s sigma_s amp : float)
  : list float :=
  map (fun t => gaussian_at t t_center_s sigma_s amp) t_s.

(** ** Parameter records *)

Record RamseyParams : Type := mkRamseyParams {
  t_pi2_s : float;
  tau_s : float
}.

Record SquareWaveParams : Type := mkSquareWaveParams {
  f_rep_hz : float;
  duty : float;
  high : float;
  low : float
}.

Definition default_RamseyParams : RamseyParams :=
  mkRamseyParams (Fin (100 / 1000000000)) (Fin (49 / 10000000)).


(** ** [build_gaussian_ramsey_lut] *)

Definition boundaries4 : Type := (float * float * float * float)%type.

(** [f_rep = 1.0 / T_rep] divides Python floats: a zero period raises
    [ZeroDivisionError] there, before the time axis is asked for. *)
Definition build_gaussian_ramsey_lut (params : RamseyParams) (N : Z)
    (sigma_frac amp : float)
  : result (list float * list float * float * boundaries4) :=
  let t_pi2 := t_pi2_s params in
  let tau := tau_s params in
  let T_rep := fadd (fmul (Fin 2) tau) (fmul (Fin 2) t_pi2) in
  if feq T_rep (Fin 0) then Raise ZeroDivisionError else
  let f_rep := fdiv (Fin 1) T_rep in
  t_s <- make_time_axis T_rep N false ;;
  let t0 := Fin 0 in
  let t1 := fadd t0 tau in
  let t2 := fadd t1 t_pi2 in
  let t3 := fadd t2 tau in
  let t4 := fadd t3 t_pi2 in
  let sigma := fmul sigma_frac t_pi2 in
  let wave := np.zeros_like t_s in
  let wave :=
    np.add wave
      (gaussian_pulse t_s (fdiv (fadd t1 t2) (Fin 2)) sigma amp) in
  let wave :=
    np.add wave
      (gaussian_pulse t_s (fdiv (fadd t3 t4) (Fin 2)) sigma amp) in
  lut <- waveform_to_lut wave "peak" true ;;
  Ok (t_s, lut, f_rep, (t1, t2, t3, t4)).

(** ** [build_square_lut] *)

Definition build_square_lut (params : SquareWaveParams) (N : Z)
    (normalize : string)
  : result (list float * list float * float * float) :=
  let f_rep := f_rep_hz params in
  if negb (isfinite f_rep) || fle f_rep (Fin 0)
  then Raise (EValueError f_rep_hz_must_be_finite_positive) else
  let duty := duty params in
  if negb (isfinite duty) || flt duty (Fin 0) || flt (Fin 1) duty
  then Raise (EValueError duty_must_be_in_0_1) else
  let T_rep := fdiv (Fin 1) f_rep in
  t_s <- make_time_axis T_rep N false ;;
  let t_high_end := fmul duty T_rep in
  let wave := np.where_lt t_s t_high_end (high params) (low params) in
  lut <- waveform_to_lut wave normalize true ;;
  Ok (t_s, lut, f_rep, t_high_end).

(** ** The same functions over the finite reals *)

(** What the functions above compute when every float involved is finite:
    the guards on finiteness are gone, the arithmetic is that of [R].  The
    agreement with the embedding is proved below ([*_fin] lemmas). *)
Module Exact.

Module np.

Definition linspace (start stop : R) (num : nat) (endpoint : bool) : list R :=
  let div := if endpoint then (num - 1)%nat else num in
  let delta := stop - start in
  let y k :=
    if (0 <? div)%nat then start + INR k * (delta / INR div)
    else start + INR k * delta in
  map (fun k =>
         if endpoint && (1 <? num)%nat && (k =? num - 1)%nat then stop
         else y k)
      (seq 0 num).

Definition abs (a : list R) : list R := map Rabs a.

Definition max (a : list R) : R :=
  match a with
  | [] => 0
  | x :: xs => fold_left Rmax xs x
  end.

Definition clip (a : list R) (lo hi : R) : list R :=
  map (fun x => Rmin (Rmax x lo) hi) a.

Definition where_lt (t_s : list R) (bound x y : R) : list R :=
  map (fun t => if Rltb t bound then x else y) t_s.

Definition divide (a : list R) (c : R) : list R := map (fun x => x / c) a.

End np.

Definition make_time_axis (T_rep_s : R) (N : Z) (endpoint : bool)
  : result (list R) :=
  if (N <=? 0)%Z then Raise (EValueError N_must_be_positive)
  else if Rleb T_rep_s 0
  then Raise (EValueError T_rep_s_must_be_finite_positive)
  else Ok (np.linspace 0 T_rep_s (Z.to_nat N) endpoint).

Definition peak_of (wave : list R) : R :=
  match wave with
  | [] => 0
  | _ => np.max (np.abs wave)
  end.

Definition waveform_to_lut (wave : list R) (normalize : string) (clip : bool)
  : result (list R) :=
  let strategy := strip (lower normalize) in
  lut <- (if String.eqb strategy "peak" then
            let peak := peak_of wave in
            if Rleb peak 0
            then Raise (EValueError Waveform_peak_zero_or_nonfinite)
            else Ok (np.divide wave peak)
          else if String.eqb strategy "none" || String.eqb strategy "off"
                  || String.eqb strategy "false"
          then Ok wave
          else Raise (EValueError Unsupported_normalize_strategy)) ;;
  Ok (if clip then np.clip lut (-1) 1 else lut).

Record RamseyParams : Type := mkRamseyParams {
  t_pi2_s : R;
  tau_s : R
}.

Record SquareWaveParams : Type := mkSquareWaveParams {
  f_rep_hz : R;
  duty : R;
  high : R;
  low : R
}.

(** One sample of the summed pulse pair: the zero the waveform starts from
    plus the two Gaussian pulses centred at [c1] and [c2]. *)
Definition ramsey_sample (c1 c2 sigma amp t : R) : R :=
  0 + amp * exp (- (1 / 2) * (((t - c1) / sigma) * ((t - c1) / sigma)))
  + amp * exp (- (1 / 2) * (((t - c2) / sigma) * ((t - c2) / sigma))).

(** With [sigma = 0] every sample of the embedding is [0] or NaN and the
    peak guard fires (lemma [ramsey_wave_sigma0] below). *)
Definition build_gaussian_ramsey_lut (params : RamseyParams) (N : Z)
    (sigma_frac amp : R)
  : result (list R * list R * R * (R * R * R * R)) :=
  let t_pi2 := t_pi2_s params in
  let tau := tau_s params in
  let T_rep := 2 * tau + 2 * t_pi2 in
  if Reqb T_rep 0 then Raise ZeroDivisionError else
  let f_rep := 1 / T_rep in
  t_s <- make_time_axis T_rep N false ;;
  let t0 := 0 in
  let t1 := t0 + tau in
  let t2 := t1 + t_pi2 in
  let t3 := t2 + tau in
  let t4 := t3 + t_pi2 in
  let sigma := sigma_frac * t_pi2 in
  if Reqb sigma 0 then Raise (EValueError Waveform_peak_zero_or_nonfinite) else
  let wave :=
    map (ramsey_sample ((t1 + t2) / 2) ((t3 + t4) / 2) sigma amp) t_s in
  lut <- waveform_to_lut wave "peak" true ;;
  Ok (t_s, lut, f_rep, (t1, t2, t3, t4)).

Definition build_square_lut (params : SquareWaveParams) (N : Z)
    (normalize : string)
  : result (list R * list R * R * R) :=
  let f_rep := f_rep_hz params in
  if Rleb f_rep 0
  then Raise (EValueError f_rep_hz_must_be_finite_positive) else
  let duty := duty params in
  if Rltb duty 0 || Rltb 1 duty
  then Raise (EValueError duty_must_be_in_0_1) else
  let T_rep := 1 / f_rep in
  t_s <- make_time_axis T_rep N false ;;
  let t_high_end := duty * T_rep in
  let wave := np.where_lt t_s t_high_end (high params) (low params) in
  lut <- waveform_to_lut wave normalize true ;;
  Ok (t_s, lut, f_rep, t_high_end).

End Exact.

(** Finite parameters and results, as floats. *)
Definition fins (a : list R) : list float := map Fin a.

Definition fin_ramsey (p : Exact.RamseyParams) : RamseyParams :=
  mkRamseyParams (Fin (Exact.t_pi2_s p)) (Fin (Exact.tau_s p)).


Definition fin_ramsey_result (r : list R * list R * R * (R * R * R * R))
  : list float * list float * float * boundaries4 :=
  match r with
  | (t_s, lut, f_rep, (t1, t2, t3, t4)) =>
      (fins t_s, fins lut, Fin f_rep, (Fin t1, Fin t2, Fin t3, Fin t4))
  end.


(** ** Vocabulary of the statements *)

(** The strategy the source dispatches on: [str(normalize).lower().strip()]. *)
Definition is_peak (s : string) : Prop := strip (lower s) = "peak"%string.

Definition is_passthrough (s : string) : Prop :=
  strip (lower s) = "none"%string \/ strip (lower s) = "off"%string
  \/ strip (lower s) = "false"%string.


Definition peak_error : exn := EValueError Waveform_peak_zero_or_nonfinite.
Definition strategy_error : exn := EValueError Unsupported_normalize_strategy.

Definition clipped (clip : bool) (lut : list R) : list R :=
  if clip then Exact.np.clip lut (-1) 1 else lut.


(** The guard of the peak strategy:
    [not np.isfinite(peak) or peak <= 0.0]. *)
Definition peak_guard (p : float) : bool :=
  negb (isfinite p) || fle p (Fin 0).

(** A sample that is zero or NaN. *)
Definition zero_or_nan (x : float) : Prop := x = NaN \/ x = Fin 0.



(** ** [config_uitl.py] *)

(** [os.getenv]: the process environment as a lookup. *)
Definition environ : Type := string -> option string.

Definition _TRUE : list string :=
  ["1"%string; "true"%string; "t"%string; "yes"%string; "y"%string;
   "on"%string].

Definition _FALSE : list string :=
  ["0"%string; "false"%string; "f"%string; "no"%string; "n"%string;
   "off"%string].

(** [v in names] for a set of strings. *)
Definition str_in (v : string) (names : list string) : bool :=
  existsb (String.eqb v) names.

(** [get_env_str(name, default, strip=...)]: the default when the variable
    is unset or empty, else the value, stripped on request. *)
Definition get_env_str (env : environ) (name : string)
    (default : option string) (strip_flag : bool) : option string :=
  match env name with
  | None => default
  | Some raw =>
      if String.eqb raw "" then default
      else Some (if strip_flag then strip raw else raw)
  end.

(** The [ValueError] of [get_env_bool], with the name and the value it
    quotes. *)
Inductive BoolError : Type := Invalid_boolean (name raw : string).

Definition get_env_bool (env : environ) (name : string) (default : bool)
  : bool + BoolError :=
  match get_env_str env name None true with
  | None => inl default
  | Some raw =>
      let v := lower raw in
      if str_in v _TRUE then inl true
      else if str_in v _FALSE then inl false
      else inr (Invalid_boolean name raw)
  end.

(** ** Further vocabulary *)

Definition head_char (s : string) : option ascii :=
  match s with
  | EmptyString => None
  | String c _ => Some c
  end.


(** Every character is white space. *)
Fixpoint all_space (s : string) : bool :=
  match s with
  | EmptyString => true
  | String c r => isspace c && all_space r
  end.

(** An environment with one variable set. *)
Definition setenv (name value : string) (env : environ) : environ :=
  fun n => if String.eqb n name then Some value else env n.





Definition all_finite (a : list float) : Prop :=
  Forall (fun x => isfinite x = true) a.

(** NaN, or a finite value of [[-1, 1]]. *)
Definition unit_or_nan (x : float) : Prop :=
  x = NaN \/ exists r, x = Fin r /\ -1 <= r <= 1.

(** * Properties *)

(** ** Boolean comparisons *)

Lemma Rleb_true (x y : R) : Rleb x y = true <-> x <= y.
Proof. unfold Rleb; destruct (Rle_dec x y); split; intros; try lra; easy. Qed.

Lemma Rleb_false (x y : R) : Rleb x y = false <-> y < x.
Proof. unfold Rleb; destruct (Rle_dec x y); split; intros; try lra; easy. Qed.

Lemma Rltb_true (x y : R) : Rltb x y = true <-> x < y.
Proof. unfold Rltb; destruct (Rlt_dec x y); split; intros; try lra; easy. Qed.

Lemma Rltb_false (x y : R) : Rltb x y = false <-> y <= x.
Proof. unfold Rltb; destruct (Rlt_dec x y); split; intros; try lra; easy. Qed.

Lemma Reqb_true (x y : R) : Reqb x y = true <-> x = y.
Proof. unfold Reqb; destruct (Req_dec_T x y); split; intros; easy. Qed.

Lemma Reqb_false (x y : R) : Reqb x y = false <-> x <> y.
Proof. unfold Reqb; destruct (Req_dec_T x y); split; intros; easy. Qed.

(** ** Failures *)

Lemma fails_with_Raise {A : Type} (e : exn) (k : ErrorKind) :
  fails_with (@Raise A e) k <-> kind_of e = Some k.
Proof.
  unfold fails_with. split.
  - intros [e' [E K]]. now injection E as ->.
  - intros K. now exists e.
Qed.


(** ** Finite reals *)

Section ExactTheory.

Import Exact.

(** *** The maximum of an array *)

Section ExactMaximum.

Lemma fold_Rmax_ge_init (xs : list R) (x : R) : x <= fold_left Rmax xs x.
Proof.
  revert x; induction xs as [|y ys IH]; intros x; simpl.
  - lra.
  - eapply Rle_trans; [apply (Rmax_l x y) | apply IH].
Qed.

Lemma fold_Rmax_ge (xs : list R) (x y : R) :
  In y xs -> y <= fold_left Rmax xs x.
Proof.
  revert x; induction xs as [|z zs IH]; intros x Hin; simpl in *.
  - contradiction.
  - destruct Hin as [-> | Hin].
    + eapply Rle_trans; [apply (Rmax_r x y) | apply fold_Rmax_ge_init].
    + now apply IH.
Qed.

Lemma fold_Rmax_in (xs : list R) (x : R) :
  fold_left Rmax xs x = x \/ In (fold_left Rmax xs x) xs.
Proof.
  revert x; induction xs as [|z zs IH]; intros x; simpl.
  - now left.
  - destruct (IH (Rmax x z)) as [E | Hin].
    + rewrite E. unfold Rmax; destruct (Rle_dec x z); auto.
    + auto.
Qed.

Lemma np_max_ge (a : list R) (y : R) : In y a -> y <= np.max a.
Proof.
  destruct a as [|x xs]; simpl; [contradiction|].
  intros [-> | Hin]; [apply fold_Rmax_ge_init | now apply fold_Rmax_ge].
Qed.

Lemma np_max_in (a : list R) : a <> [] -> In (np.max a) a.
Proof.
  destruct a as [|x xs]; [congruence|]. intros _. simpl.
  destruct (fold_Rmax_in xs x) as [E | Hin]; [left; now rewrite E | now right].
Qed.

(** The maximum is the one element that bounds all the others. *)
Lemma np_max_unique (a : list R) (m : R) :
  In m a -> (forall y, In y a -> y <= m) -> np.max a = m.
Proof.
  intros Hm Hub.
  assert (Hne : a <> []) by (destruct a; [contradiction | congruence]).
  apply Rle_antisym.
  - apply Hub, np_max_in, Hne.
  - now apply np_max_ge.
Qed.

End ExactMaximum.

(** ** The peak of a waveform *)

Section ExactPeak.

Lemma peak_of_cons (x : R) (xs : list R) :
  peak_of (x :: xs) = np.max (np.abs (x :: xs)).
Proof. reflexivity. Qed.

Lemma peak_of_nonneg (wave : list R) : 0 <= peak_of wave.
Proof.
  destruct wave as [|x xs]; [simpl; lra|].
  rewrite peak_of_cons.
  eapply Rle_trans; [apply (Rabs_pos x)|].
  apply np_max_ge. simpl. now left.
Qed.

Lemma peak_of_ge (wave : list R) (x : R) : In x wave -> Rabs x <= peak_of wave.
Proof.
  intros Hin. destruct wave as [|y ys]; [contradiction|].
  rewrite peak_of_cons. apply np_max_ge. unfold np.abs. now apply in_map.
Qed.

Lemma peak_of_attained (wave : list R) :
  wave <> [] -> exists x, In x wave /\ Rabs x = peak_of wave.
Proof.
  intros Hne. destruct wave as [|y ys]; [congruence|].
  rewrite peak_of_cons.
  assert (Hin : In (np.max (np.abs (y :: ys))) (np.abs (y :: ys)))
    by (apply np_max_in; discriminate).
  unfold np.abs in Hin at 2. apply in_map_iff in Hin.
  destruct Hin as [x [Hx Hin]]. exists x. now split.
Qed.

(** The peak is positive exactly when some sample is not zero. *)
Lemma peak_of_pos_iff (wave : list R) :
  0 < peak_of wave <-> Exists (fun x => x <> 0) wave.
Proof.
  split.
  - intros Hpos. destruct wave as [|y ys]; [simpl in Hpos; lra|].
    destruct (peak_of_attained (y :: ys)) as [x [Hin Hx]]; [discriminate|].
    apply Exists_exists. exists x. split; [exact Hin|].
    intros ->. rewrite Rabs_R0 in Hx. lra.
  - intros Hex. apply Exists_exists in Hex. destruct Hex as [x [Hin Hx]].
    eapply Rlt_le_trans; [apply (Rabs_pos_lt x Hx) | now apply peak_of_ge].
Qed.


(** Scaling every sample by [c >= 0] scales the peak by [c]. *)
Lemma peak_of_scale (c : R) (wave : list R) :
  0 <= c -> peak_of (map (Rmult c) wave) = c * peak_of wave.
Proof.
  intros Hc. destruct wave as [|y ys]; [simpl; lra|].
  destruct (peak_of_attained (y :: ys)) as [x [Hin Hx]]; [discriminate|].
  change (map (Rmult c) (y :: ys)) with (c * y :: map (Rmult c) ys).
  rewrite peak_of_cons. apply np_max_unique.
  - unfold np.abs. apply in_map_iff. exists (c * x). split.
    + rewrite Rabs_mult, (Rabs_pos_eq c Hc), Hx. reflexivity.
    + change (c * y :: map (Rmult c) ys) with (map (Rmult c) (y :: ys)).
      now apply in_map.
  - intros z Hz. unfold np.abs in Hz. apply in_map_iff in Hz.
    destruct Hz as [w [<- Hw]].
    change (c * y :: map (Rmult c) ys) with (map (Rmult c) (y :: ys)) in Hw.
    apply in_map_iff in Hw. destruct Hw as [v [<- Hv]].
    rewrite Rabs_mult, (Rabs_pos_eq c Hc).
    apply Rmult_le_compat_l; [exact Hc | now apply peak_of_ge].
Qed.

End ExactPeak.

(** ** [waveform_to_lut]: the three outcomes *)

Section ExactNormalizer.

Lemma waveform_to_lut_peak (wave : list R) (s : string) (clip : bool) :
  is_peak s ->
  waveform_to_lut wave s clip =
  if Rleb (peak_of wave) 0 then Raise peak_error
  else Ok (clipped clip (np.divide wave (peak_of wave))).
Proof.
  unfold is_peak, waveform_to_lut. intros ->.
  change (String.eqb "peak" "peak") with true. cbv iota.
  destruct (Rleb (peak_of wave) 0); reflexivity.
Qed.


Lemma waveform_to_lut_unsupported (wave : list R) (s : string) (clip : bool) :
  ~ is_peak s -> ~ is_passthrough s ->
  waveform_to_lut wave s clip = Raise strategy_error.
Proof.
  unfold is_peak, is_passthrough, waveform_to_lut. intros Hp Hn.
  destruct (String.eqb_spec (strip (lower s)) "peak") as [E | _];
    [contradiction|].
  destruct (String.eqb_spec (strip (lower s)) "none") as [E | _];
    [exfalso; auto|].
  destruct (String.eqb_spec (strip (lower s)) "off") as [E | _];
    [exfalso; auto|].
  destruct (String.eqb_spec (strip (lower s)) "false") as [E | _];
    [exfalso; auto|].
  reflexivity.
Qed.

Lemma is_peak_dec (s : string) : {is_peak s} + {~ is_peak s}.
Proof. apply string_dec. Qed.

Lemma is_passthrough_dec (s : string) : {is_passthrough s} + {~ is_passthrough s}.
Proof.
  unfold is_passthrough.
  destruct (string_dec (strip (lower s)) "none"); [left; auto|].
  destruct (string_dec (strip (lower s)) "off"); [left; auto|].
  destruct (string_dec (strip (lower s)) "false"); [left; auto|].
  right. intros [? | [? | ?]]; contradiction.
Qed.


(** Clipping leaves values of [[-1, 1]] alone. *)
Lemma clip_unit_id (a : list R) :
  Forall (fun v => -1 <= v <= 1) a -> np.clip a (-1) 1 = a.
Proof.
  induction 1 as [|x xs Hx _ IH]; [reflexivity|].
  unfold np.clip in *. simpl. rewrite IH. f_equal.
  rewrite Rmax_left by lra. rewrite Rmin_left by lra. reflexivity.
Qed.

Lemma clip_unit_range (a : list R) :
  Forall (fun v => -1 <= v <= 1) (np.clip a (-1) 1).
Proof.
  unfold np.clip. apply Forall_forall. intros v Hin.
  apply in_map_iff in Hin. destruct Hin as [x [<- _]].
  unfold Rmin, Rmax.
  destruct (Rle_dec x (-1)); destruct (Rle_dec _ 1); lra.
Qed.

(** Dividing by a positive peak lands in [[-1, 1]]. *)
Lemma divide_peak_range (wave : list R) :
  0 < peak_of wave ->
  Forall (fun v => -1 <= v <= 1) (np.divide wave (peak_of wave)).
Proof.
  intros Hpos. unfold np.divide. apply Forall_forall. intros v Hin.
  apply in_map_iff in Hin. destruct Hin as [x [<- Hin]].
  pose proof (peak_of_ge wave x Hin) as Hx.
  assert (Hq : Rabs (x / peak_of wave) <= 1).
  { unfold Rdiv. rewrite Rabs_mult, Rabs_inv, (Rabs_pos_eq (peak_of wave)) by lra.
    apply (Rmult_le_reg_r (peak_of wave)); [exact Hpos|].
    rewrite Rmult_assoc, Rinv_l by lra. lra. }
  unfold Rabs in Hq. destruct (Rcase_abs (x / peak_of wave)); lra.
Qed.

Lemma divide_peak_peak (wave : list R) :
  0 < peak_of wave -> peak_of (np.divide wave (peak_of wave)) = 1.
Proof.
  intros Hpos.
  assert (Hne : wave <> []) by (intros ->; simpl in Hpos; lra).
  destruct (peak_of_attained wave Hne) as [x [Hin Hx]].
  pose proof (divide_peak_range wave Hpos) as Hr.
  rewrite Forall_forall in Hr.
  destruct wave as [|y ys]; [congruence|].
  unfold np.divide in *.
  change (map (fun x0 => x0 / peak_of (y :: ys)) (y :: ys))
    with (y / peak_of (y :: ys) :: map (fun x0 => x0 / peak_of (y :: ys)) ys)
    at 1.
  rewrite peak_of_cons. apply np_max_unique.
  - unfold np.abs. apply in_map_iff. exists (x / peak_of (y :: ys)). split.
    + unfold Rdiv. rewrite Rabs_mult, Rabs_inv, Hx.
      rewrite (Rabs_pos_eq (peak_of (y :: ys))) by lra.
      apply Rinv_r. lra.
    + change (In (x / peak_of (y :: ys))
                 (map (fun x0 => x0 / peak_of (y :: ys)) (y :: ys))).
      apply in_map_iff. exists x. now split.
  - intros z Hz. unfold np.abs in Hz. apply in_map_iff in Hz.
    destruct Hz as [w [<- Hw]].
    specialize (Hr w Hw). unfold Rabs. destruct (Rcase_abs w); lra.
Qed.

End ExactNormalizer.

(** *** Peak normalisation *)

Section ExactPeakNormalisation.

(** Strategy "peak" with clipping on a sequence with a sample that is not
    zero: same length, every sample divided by the peak, all values within
    [[-1, 1]], peak exactly 1. *)
Lemma exact_peak_normalize_unit (wave : list R) :
  Exists (fun x => x <> 0) wave ->
  exists lut,
    waveform_to_lut wave "peak" true = Ok lut
    /\ List.length lut = List.length wave
    /\ (forall i, (i < List.length wave)%nat ->
                  nth i lut 0 = nth i wave 0 / peak_of wave)
    /\ Forall (fun v => -1 <= v <= 1) lut
    /\ peak_of lut = 1.
Proof.
  intros Hex. apply peak_of_pos_iff in Hex.
  exists (np.divide wave (peak_of wave)).
  assert (Hr := divide_peak_range wave Hex).
  split; [|split; [|split; [|split]]].
  - rewrite waveform_to_lut_peak by reflexivity.
    replace (Rleb (peak_of wave) 0) with false
      by (symmetry; apply Rleb_false; exact Hex).
    unfold clipped. now rewrite clip_unit_id.
  - unfold np.divide. apply length_map.
  - intros i Hi. unfold np.divide.
    rewrite (nth_indep _ 0 (0 / peak_of wave)) by (now rewrite length_map).
    apply (map_nth (fun x => x / peak_of wave)).
  - exact Hr.
  - now apply divide_peak_peak.
Qed.

Lemma waveform_to_lut_scale (c : R) (x : list R) (s : string) (clip : bool) :
  0 < c -> is_peak s ->
  waveform_to_lut (map (Rmult c) x) s clip = waveform_to_lut x s clip.
Proof.
  intros Hc Hs. rewrite !waveform_to_lut_peak by exact Hs.
  rewrite peak_of_scale by lra.
  pose proof (peak_of_nonneg x) as Hnn.
  destruct (Rle_dec (peak_of x) 0) as [Hz | Hp].
  - replace (Rleb (peak_of x) 0) with true by (symmetry; now apply Rleb_true).
    replace (Rleb (c * peak_of x) 0) with true
      by (symmetry; apply Rleb_true; nra).
    reflexivity.
  - replace (Rleb (peak_of x) 0) with false
      by (symmetry; apply Rleb_false; lra).
    replace (Rleb (c * peak_of x) 0) with false
      by (symmetry; apply Rleb_false; nra).
    do 2 f_equal. unfold np.divide. rewrite map_map.
    apply map_ext. intros a. field. split; lra.
Qed.

End ExactPeakNormalisation.

(** ** The time axis *)

Section ExactTimeAxis.

Lemma nth_map_seq (f : nat -> R) (n k : nat) (d : R) :
  (k < n)%nat -> nth k (map f (seq 0 n)) d = f k.
Proof.
  intros Hk.
  rewrite (nth_indep _ d (f 0%nat)) by (now rewrite length_map, length_seq).
  rewrite map_nth, seq_nth by exact Hk. reflexivity.
Qed.

Lemma linspace_length (a b : R) (n : nat) (e : bool) :
  List.length (np.linspace a b n e) = n.
Proof. unfold np.linspace. now rewrite length_map, length_seq. Qed.


(** Samples of the closed axis with at least two points. *)
Lemma linspace_closed_nth (T : R) (n k : nat) (d : R) :
  (1 < n)%nat -> (k < n)%nat ->
  nth k (np.linspace 0 T n true) d = INR k * (T / INR (n - 1)).
Proof.
  intros Hn Hk. unfold np.linspace. rewrite nth_map_seq by exact Hk.
  replace (1 <? n)%nat with true by (symmetry; apply Nat.ltb_lt; lia).
  replace (0 <? n - 1)%nat with true by (symmetry; apply Nat.ltb_lt; lia).
  simpl andb.
  assert (Hd : INR (n - 1) <> 0) by (apply not_0_INR; lia).
  destruct (Nat.eqb_spec k (n - 1)) as [-> | _].
  - field. exact Hd.
  - rewrite Rminus_0_r. ring.
Qed.





Lemma make_time_axis_ok (T : R) (N : Z) (e : bool) :
  0 < T -> (0 < N)%Z ->
  make_time_axis T N e = Ok (np.linspace 0 T (Z.to_nat N) e).
Proof.
  intros HT HN. unfold make_time_axis.
  replace (N <=? 0)%Z with false by (symmetry; apply Z.leb_gt; lia).
  replace (Rleb T 0) with false by (symmetry; apply Rleb_false; lra).
  reflexivity.
Qed.

Lemma INR_to_nat (N : Z) : (0 <= N)%Z -> INR (Z.to_nat N) = IZR N.
Proof. intros HN. rewrite INR_IZR_INZ, Z2Nat.id by exact HN. reflexivity. Qed.



End ExactTimeAxis.

Section ExactTimeAxisShape.



End ExactTimeAxisShape.

(** ** The square-wave builder *)

Section ExactSquare.













Lemma divide_one (a : list R) : np.divide a 1 = a.
Proof.
  unfold np.divide. rewrite <- (map_id a) at 2.
  apply map_ext. intros x. field.
Qed.


End ExactSquare.

Section ExactSquareResults.



End ExactSquareResults.

(** ** The Gaussian pulse-pair builder *)

Section ExactRamsey.





End ExactRamsey.

Section ExactRamseyResults.


End ExactRamseyResults.

End ExactTheory.

(** ** Floats on finite values *)

Section FloatFinite.

Lemma fdiv_fin (a b : R) : b <> 0 -> fdiv (Fin a) (Fin b) = Fin (a / b).
Proof.
  intros Hb. unfold fdiv.
  replace (Reqb b 0) with false by (symmetry; now apply Reqb_false).
  reflexivity.
Qed.

Lemma fmaximum_fin (a b : R) : fmaximum (Fin a) (Fin b) = Fin (Rmax a b).
Proof.
  unfold fmaximum, fle, Rleb, Rmax. destruct (Rle_dec a b); reflexivity.
Qed.

Lemma fminimum_fin (a b : R) : fminimum (Fin a) (Fin b) = Fin (Rmin a b).
Proof.
  unfold fminimum, fle, Rleb, Rmin. destruct (Rle_dec a b); reflexivity.
Qed.

Lemma fins_length (a : list R) : List.length (fins a) = List.length a.
Proof. apply length_map. Qed.

Lemma fins_inj (a b : list R) : fins a = fins b -> a = b.
Proof.
  revert b. induction a as [|x a IH]; intros [|y b] E;
    try discriminate E; [reflexivity|].
  simpl in E. injection E as Exy E. f_equal; [exact Exy | now apply IH].
Qed.

Lemma linspace_fin (a b : R) (n : nat) (e : bool) :
  np.linspace (Fin a) (Fin b) n e = fins (Exact.np.linspace a b n e).
Proof.
  unfold np.linspace, Exact.np.linspace, fins. rewrite map_map.
  apply map_ext_in. intros k Hk.
  destruct (e && (1 <? n)%nat && (k =? n - 1)%nat); [reflexivity|].
  destruct (Nat.ltb_spec 0 (if e then (n - 1)%nat else n)) as [Hd | Hd].
  - cbn [fsub fneg fadd]. rewrite fdiv_fin by (apply not_0_INR; lia).
    cbn [fmul fadd]. f_equal. unfold Rminus. ring.
  - cbn [fsub fneg fadd fmul]. f_equal. unfold Rminus. ring.
Qed.

Lemma abs_fin (a : list R) : np.abs (fins a) = fins (Exact.np.abs a).
Proof. unfold np.abs, Exact.np.abs, fins. now rewrite !map_map. Qed.

Lemma fold_fmaximum_fin (xs : list R) (x : R) :
  fold_left fmaximum (fins xs) (Fin x) = Fin (fold_left Rmax xs x).
Proof.
  unfold fins. revert x. induction xs as [|y ys IH]; intros x; [reflexivity|].
  cbn [map fold_left]. rewrite fmaximum_fin. apply IH.
Qed.

Lemma max_fin (a : list R) : np.max (fins a) = Fin (Exact.np.max a).
Proof. destruct a as [|x xs]; [reflexivity | apply fold_fmaximum_fin]. Qed.

Lemma peak_of_fin (w : list R) : peak_of (fins w) = Fin (Exact.peak_of w).
Proof.
  destruct w as [|x xs]; [reflexivity|].
  change (peak_of (fins (x :: xs))) with (np.max (np.abs (fins (x :: xs)))).
  rewrite abs_fin, max_fin. reflexivity.
Qed.

Lemma divide_fin (a : list R) (c : R) :
  c <> 0 -> np.divide (fins a) (Fin c) = fins (Exact.np.divide a c).
Proof.
  intros Hc. unfold np.divide, Exact.np.divide, fins. rewrite !map_map.
  apply map_ext. intros x. now apply fdiv_fin.
Qed.

Lemma clip_fin (a : list R) (lo hi : R) :
  np.clip (fins a) (Fin lo) (Fin hi) = fins (Exact.np.clip a lo hi).
Proof.
  unfold np.clip, Exact.np.clip, fins. rewrite !map_map.
  apply map_ext. intros x. now rewrite fmaximum_fin, fminimum_fin.
Qed.


Lemma add_map {A : Type} (f g : A -> float) (l : list A) :
  np.add (map f l) (map g l) = map (fun x => fadd (f x) (g x)) l.
Proof. induction l as [|x r IH]; simpl; [reflexivity | now rewrite IH]. Qed.

End FloatFinite.

(** ** The embedding agrees with the finite reals *)

Section Agreement.

Lemma make_time_axis_fin (T : R) (N : Z) (e : bool) :
  make_time_axis (Fin T) N e = result_map fins (Exact.make_time_axis T N e).
Proof.
  unfold make_time_axis, Exact.make_time_axis.
  destruct (N <=? 0)%Z; [reflexivity|].
  cbn [isfinite negb orb fle]. destruct (Rleb T 0); [reflexivity|].
  simpl. now rewrite linspace_fin.
Qed.

Lemma waveform_to_lut_fin (w : list R) (s : string) (clip : bool) :
  waveform_to_lut (fins w) s clip
  = result_map fins (Exact.waveform_to_lut w s clip).
Proof.
  unfold waveform_to_lut, Exact.waveform_to_lut.
  destruct (String.eqb (strip (lower s)) "peak").
  - rewrite peak_of_fin. cbn [isfinite negb orb fle].
    destruct (Rleb (Exact.peak_of w) 0) eqn:Hp; [reflexivity|].
    apply Rleb_false in Hp. rewrite divide_fin by lra.
    simpl. destruct clip; [now rewrite clip_fin | reflexivity].
  - destruct (String.eqb (strip (lower s)) "none"
              || String.eqb (strip (lower s)) "off"
              || String.eqb (strip (lower s)) "false"); [|reflexivity].
    simpl. destruct clip; [now rewrite clip_fin | reflexivity].
Qed.


End Agreement.

(** ** The pulse pair on floats *)

Section RamseyAgreement.

Lemma gaussian_at_fin (t c sigma amp : R) :
  sigma <> 0 ->
  gaussian_at (Fin t) (Fin c) (Fin sigma) (Fin amp)
  = Fin (amp * exp (- (1 / 2) * ((t - c) / sigma * ((t - c) / sigma)))).
Proof.
  intros Hs. unfold gaussian_at. cbn [fsub fneg fadd].
  rewrite fdiv_fin by exact Hs. reflexivity.
Qed.

(** Division by a zero [sigma]: the quotient is an infinity or NaN, the
    exponential of minus infinity is zero. *)
Lemma gaussian_at_sigma0 (t c amp : R) :
  zero_or_nan (gaussian_at (Fin t) (Fin c) (Fin 0) (Fin amp)).
Proof.
  unfold gaussian_at, zero_or_nan. cbn [fsub fneg fadd]. unfold fdiv.
  replace (Reqb 0 0) with true by (symmetry; now apply Reqb_true).
  destruct (Reqb (t + - c) 0); [now left | right].
  cbn [fmul]. rewrite xorb_nilpotent.
  replace (Reqb (- (1 / 2)) 0) with false
    by (symmetry; apply Reqb_false; lra).
  replace (Rltb (- (1 / 2)) 0) with true by (symmetry; apply Rltb_true; lra).
  cbn [xorb fexp fmul]. f_equal. ring.
Qed.

Lemma zero_or_nan_fadd (x y : float) :
  zero_or_nan x -> zero_or_nan y -> zero_or_nan (fadd x y).
Proof.
  unfold zero_or_nan. intros [-> | ->] [-> | ->]; cbn [fadd]; auto.
  right. f_equal. ring.
Qed.

Lemma zero_or_nan_fabs (x : float) : zero_or_nan x -> zero_or_nan (fabs x).
Proof.
  unfold zero_or_nan. intros [-> | ->]; cbn [fabs]; auto.
  right. f_equal. apply Rabs_R0.
Qed.

Lemma zero_or_nan_fmaximum (x y : float) :
  zero_or_nan x -> zero_or_nan y -> zero_or_nan (fmaximum x y).
Proof.
  unfold zero_or_nan. intros [-> | ->] [-> | ->]; cbn [fmaximum]; auto.
  destruct (fle (Fin 0) (Fin 0)); auto.
Qed.

Lemma zero_or_nan_fold (xs : list float) (x : float) :
  zero_or_nan x -> Forall zero_or_nan xs ->
  zero_or_nan (fold_left fmaximum xs x).
Proof.
  intros Hx Hxs. revert x Hx.
  induction Hxs as [|y ys Hy _ IH]; intros x Hx; [exact Hx|].
  cbn [fold_left]. apply IH. now apply zero_or_nan_fmaximum.
Qed.

Lemma zero_or_nan_peak (w : list float) :
  Forall zero_or_nan w -> zero_or_nan (peak_of w).
Proof.
  intros Hw. destruct Hw as [|x xs Hx Hxs]; [now right|].
  cbn [peak_of np.abs np.max map]. apply zero_or_nan_fold.
  - now apply zero_or_nan_fabs.
  - apply Forall_forall. intros y Hy. apply in_map_iff in Hy.
    destruct Hy as [z [<- Hz]]. apply zero_or_nan_fabs.
    rewrite Forall_forall in Hxs. now apply Hxs.
Qed.

(** A waveform of zeros and NaNs does not pass the peak guard. *)
Lemma waveform_to_lut_zero_or_nan (w : list float) (clip : bool) :
  Forall zero_or_nan w -> waveform_to_lut w "peak" clip = Raise peak_error.
Proof.
  intros Hw. apply zero_or_nan_peak in Hw.
  unfold waveform_to_lut.
  change (String.eqb (strip (lower "peak")) "peak") with true. cbv iota.
  destruct Hw as [-> | ->]; cbn [isfinite negb orb fle].
  - reflexivity.
  - replace (Rleb 0 0) with true by (symmetry; apply Rleb_true; lra).
    reflexivity.
Qed.

(** The summed waveform over a finite axis. *)
Lemma ramsey_wave (ts : list R) (c1 c2 sigma amp : float) :
  np.add (np.add (np.zeros_like (fins ts)) (gaussian_pulse (fins ts) c1 sigma amp))
         (gaussian_pulse (fins ts) c2 sigma amp)
  = map (fun t => fadd (fadd (Fin 0) (gaussian_at (Fin t) c1 sigma amp))
                       (gaussian_at (Fin t) c2 sigma amp)) ts.
Proof.
  unfold np.zeros_like, gaussian_pulse, fins. rewrite !map_map, !add_map.
  reflexivity.
Qed.

(** With [sigma = 0] the builder's waveform holds zeros and NaNs only. *)
Lemma ramsey_wave_sigma0 (ts : list R) (c1 c2 amp : R) :
  Forall zero_or_nan
    (np.add (np.add (np.zeros_like (fins ts))
                    (gaussian_pulse (fins ts) (Fin c1) (Fin 0) (Fin amp)))
            (gaussian_pulse (fins ts) (Fin c2) (Fin 0) (Fin amp))).
Proof.
  rewrite ramsey_wave. apply Forall_forall. intros x Hx.
  apply in_map_iff in Hx. destruct Hx as [t [<- _]].
  apply zero_or_nan_fadd; [apply zero_or_nan_fadd|];
    try apply gaussian_at_sigma0. now right.
Qed.

Lemma ramsey_wave_fin (ts : list R) (c1 c2 sigma amp : R) :
  sigma <> 0 ->
  np.add (np.add (np.zeros_like (fins ts))
                 (gaussian_pulse (fins ts) (Fin c1) (Fin sigma) (Fin amp)))
         (gaussian_pulse (fins ts) (Fin c2) (Fin sigma) (Fin amp))
  = fins (map (Exact.ramsey_sample c1 c2 sigma amp) ts).
Proof.
  intros Hs. rewrite ramsey_wave. unfold fins. rewrite map_map.
  apply map_ext. intros t. rewrite !gaussian_at_fin by exact Hs.
  reflexivity.
Qed.

Lemma build_gaussian_ramsey_lut_fin (p : Exact.RamseyParams) (N : Z)
    (sigma_frac amp : R) :
  build_gaussian_ramsey_lut (fin_ramsey p) N (Fin sigma_frac) (Fin amp)
  = result_map fin_ramsey_result
      (Exact.build_gaussian_ramsey_lut p N sigma_frac amp).
Proof.
  unfold build_gaussian_ramsey_lut, Exact.build_gaussian_ramsey_lut, fin_ramsey.
  cbn [t_pi2_s tau_s fmul fadd feq].
  destruct (Reqb (2 * Exact.tau_s p + 2 * Exact.t_pi2_s p) 0) eqn:HT;
    [reflexivity|].
  apply Reqb_false in HT. rewrite !fdiv_fin by (exact HT || lra).
  rewrite make_time_axis_fin.
  destruct (Exact.make_time_axis _ N false) as [ts | e]; [|reflexivity].
  cbn [result_map bind].
  destruct (Reqb (sigma_frac * Exact.t_pi2_s p) 0) eqn:Hs.
  - apply Reqb_true in Hs. rewrite Hs.
    rewrite waveform_to_lut_zero_or_nan by apply ramsey_wave_sigma0.
    reflexivity.
  - apply Reqb_false in Hs. rewrite ramsey_wave_fin by exact Hs.
    rewrite waveform_to_lut_fin.
    destruct (Exact.waveform_to_lut _ "peak" true) as [lut | e]; reflexivity.
Qed.

End RamseyAgreement.

(** * Claims *)

Section ResultFacts.


End ResultFacts.

(** ** The normaliser *)

Section NormalizerClaims.

(** C1.  With strategy "peak" and clipping, a finite sequence with a sample
    that is not zero is returned with the same length, every sample divided
    by the maximum absolute input value [m], all values within [[-1, 1]] and
    maximum absolute value exactly 1. *)
Theorem C1_peak_normalize_unit (wave : list R) :
  Exists (fun x => x <> 0) wave ->
  exists (lut : list R) (m : R),
    waveform_to_lut (fins wave) "peak" true = Ok (fins lut)
    /\ peak_of (fins wave) = Fin m
    /\ List.length lut = List.length wave
    /\ (forall i, (i < List.length wave)%nat -> nth i lut 0 = nth i wave 0 / m)
    /\ Forall (fun v => -1 <= v <= 1) lut
    /\ peak_of (fins lut) = Fin 1.
Proof.
  intros Hex.
  destruct (exact_peak_normalize_unit wave Hex)
    as [lut [Hok [Hlen [Hnth [Hrange Hpeak]]]]].
  exists lut, (Exact.peak_of wave).
  rewrite waveform_to_lut_fin, Hok, !peak_of_fin, Hpeak.
  repeat split; assumption.
Qed.

Lemma C1_peak_normalize_unit_witness :
  exists (lut : list R) (m : R),
    waveform_to_lut (fins [3; -4]) "peak" true = Ok (fins lut)
    /\ peak_of (fins [3; -4]) = Fin m
    /\ List.length lut = 2%nat
    /\ (forall i, (i < 2)%nat -> nth i lut 0 = nth i [3; -4] 0 / m)
    /\ Forall (fun v => -1 <= v <= 1) lut
    /\ peak_of (fins lut) = Fin 1.
Proof.
  apply (C1_peak_normalize_unit [3; -4]).
  apply Exists_cons_hd. lra.
Defined.

(** C8.  Strategy "none" without clipping returns the samples unchanged,
    whatever they are. *)
Theorem C8_none_noclip_identity (x : list float) :
  waveform_to_lut x "none" false = Ok x.
Proof. reflexivity. Qed.

(** C9.  Peak normalisation does not see a positive scale factor: for [c >
    0] and a finite sequence with a sample that is not zero, normalising
    [c * x] gives what normalising [x] gives, with either clip setting. *)
Theorem C9_peak_scale_invariant (c : R) (x : list R) (clip : bool) :
  0 < c -> Exists (fun v => v <> 0) x ->
  waveform_to_lut (map (fmul (Fin c)) (fins x)) "peak" clip
  = waveform_to_lut (fins x) "peak" clip.
Proof.
  intros Hc _.
  replace (map (fmul (Fin c)) (fins x)) with (fins (map (Rmult c) x))
    by (unfold fins; now rewrite !map_map).
  rewrite !waveform_to_lut_fin. f_equal.
  now apply (waveform_to_lut_scale c x "peak" clip).
Qed.

Lemma C9_peak_scale_invariant_witness :
  waveform_to_lut (map (fmul (Fin 5)) (fins [3; -4])) "peak" false
  = waveform_to_lut (fins [3; -4]) "peak" false.
Proof.
  apply (C9_peak_scale_invariant 5 [3; -4] false).
  - lra.
  - apply Exists_cons_hd. lra.
Defined.

End NormalizerClaims.

Section NormalizerFailures.

Lemma waveform_to_lut_peak_float (wave : list float) (s : string)
    (clip : bool) :
  is_peak s ->
  waveform_to_lut wave s clip =
  if peak_guard (peak_of wave) then Raise peak_error
  else Ok (if clip
           then np.clip (np.divide wave (peak_of wave)) (Fin (-1)) (Fin 1)
           else np.divide wave (peak_of wave)).
Proof.
  unfold is_peak, waveform_to_lut, peak_guard. intros ->.
  change (String.eqb "peak" "peak") with true. cbv iota.
  destruct (negb (isfinite (peak_of wave)) || fle (peak_of wave) (Fin 0));
    reflexivity.
Qed.

Lemma waveform_to_lut_passthrough_float (wave : list float) (s : string)
    (clip : bool) :
  is_passthrough s ->
  waveform_to_lut wave s clip
  = Ok (if clip then np.clip wave (Fin (-1)) (Fin 1) else wave).
Proof.
  unfold is_passthrough, waveform_to_lut.
  intros [-> | [-> | ->]]; reflexivity.
Qed.

Lemma waveform_to_lut_unsupported_float (wave : list float) (s : string)
    (clip : bool) :
  ~ is_peak s -> ~ is_passthrough s ->
  waveform_to_lut wave s clip = Raise strategy_error.
Proof.
  unfold is_peak, is_passthrough, waveform_to_lut. intros Hp Hn.
  destruct (String.eqb_spec (strip (lower s)) "peak") as [E | _];
    [contradiction|].
  destruct (String.eqb_spec (strip (lower s)) "none") as [E | _];
    [exfalso; auto|].
  destruct (String.eqb_spec (strip (lower s)) "off") as [E | _];
    [exfalso; auto|].
  destruct (String.eqb_spec (strip (lower s)) "false") as [E | _];
    [exfalso; auto|].
  reflexivity.
Qed.




End NormalizerFailures.

(** ** The time axis *)

Section TimeAxisClaims.




End TimeAxisClaims.

(** ** The square-wave builder *)

Section SquareClaims.





End SquareClaims.

(** ** The Gaussian pulse-pair builder *)

Section RamseyClaims.












End RamseyClaims.

(** * Further properties of the code *)

(** ** [make_time_axis] *)

Section TimeAxisMore.

Lemma fins_all_finite (a : list R) : all_finite (fins a).
Proof.
  unfold all_finite, fins. apply Forall_forall. intros x Hx.
  apply in_map_iff in Hx. now destruct Hx as [r [<- _]].
Qed.

Lemma all_finite_fins (a : list float) :
  all_finite a -> exists b, a = fins b.
Proof.
  induction 1 as [|x xs Hx _ [b ->]]; [now exists []|].
  destruct x as [r | s |]; try discriminate Hx. now exists (r :: b).
Qed.

(** X1.  [make_time_axis] returns an axis exactly when [N > 0] and the
    period is finite and positive; [N <= 0] raises the "N must be positive"
    error whatever the period is, any other bad period raises the period
    error; a returned axis has [N] entries, all finite. *)
Theorem X1_time_axis_outcome (T : float) (N : Z) (endpoint : bool) :
  ((N <= 0)%Z ->
   make_time_axis T N endpoint = Raise (EValueError N_must_be_positive))
  /\ ((0 < N)%Z -> isfinite T = false \/ fle T (Fin 0) = true ->
      make_time_axis T N endpoint
      = Raise (EValueError T_rep_s_must_be_finite_positive))
  /\ ((exists t_s, make_time_axis T N endpoint = Ok t_s)
      <-> (0 < N)%Z /\ exists t, T = Fin t /\ 0 < t)
  /\ (forall t_s, make_time_axis T N endpoint = Ok t_s ->
                  List.length t_s = Z.to_nat N /\ all_finite t_s).
Proof.
  unfold make_time_axis.
  destruct (Z.leb_spec N 0) as [HN | HN].
  - split; [reflexivity|]. split; [lia|]. split.
    + split; [intros [t_s E]; discriminate E | lia].
    + intros t_s E. discriminate E.
  - split; [lia|]. destruct T as [t | s |]; cbn [isfinite negb orb fle].
    + destruct (Rleb t 0) eqn:Ht.
      * split; [reflexivity|]. split.
        -- split; [intros [t_s E]; discriminate E|].
           intros [_ [t' [E Hpos]]]. injection E as <-.
           apply Rleb_true in Ht. lra.
        -- intros t_s E. discriminate E.
      * split; [intros _ [F | F]; discriminate F|]. split.
        -- split; [|intros _; eexists; reflexivity].
           intros _. split; [exact HN|]. exists t.
           split; [reflexivity | now apply Rleb_false].
        -- intros t_s E. injection E as <-. rewrite linspace_fin.
           split; [|apply fins_all_finite].
           rewrite fins_length. apply linspace_length.
    + split; [reflexivity|]. split.
      * split; [intros [t_s E]; discriminate E|].
        intros [_ [t' [E _]]]. discriminate E.
      * intros t_s E. discriminate E.
    + split; [reflexivity|]. split.
      * split; [intros [t_s E]; discriminate E|].
        intros [_ [t' [E _]]]. discriminate E.
      * intros t_s E. discriminate E.
Qed.

(** X2.  With the end point, a finite period [T > 0] and [N >= 2] the
    [k]-th value of the axis is [k * T / (N - 1)]: the spacing is [T / (N -
    1)], not [T / N]. *)
Theorem X2_closed_axis_values (T : R) (N : Z) :
  0 < T -> (1 < N)%Z ->
  exists t_s : list R,
    make_time_axis (Fin T) N true = Ok (fins t_s)
    /\ List.length t_s = Z.to_nat N
    /\ forall k, (k < Z.to_nat N)%nat ->
                 nth k t_s 0 = INR k * T / (IZR N - 1).
Proof.
  intros HT HN.
  exists (Exact.np.linspace 0 T (Z.to_nat N) true).
  rewrite make_time_axis_fin, make_time_axis_ok by (lra || lia).
  split; [reflexivity|]. split; [apply linspace_length|].
  intros k Hk. rewrite linspace_closed_nth by lia.
  rewrite minus_INR by lia. rewrite INR_to_nat by lia. simpl INR.
  unfold Rdiv. ring.
Qed.

Lemma X2_closed_axis_values_witness :
  exists t_s : list R,
    make_time_axis (Fin 2) 5 true = Ok (fins t_s)
    /\ List.length t_s = Z.to_nat 5
    /\ forall k, (k < Z.to_nat 5)%nat -> nth k t_s 0 = INR k * 2 / (IZR 5 - 1).
Proof. apply (X2_closed_axis_values 2 5); [lra | lia]. Defined.

Lemma linspace_open_closed (T : R) (n : nat) :
  (0 < n)%nat ->
  Exact.np.linspace 0 T n false
  = removelast (Exact.np.linspace 0 T (S n) true).
Proof.
  intros Hn. unfold Exact.np.linspace.
  rewrite seq_S, map_app. cbn [map]. rewrite removelast_last.
  apply map_ext_in. intros k Hk. apply in_seq in Hk.
  cbn [andb]. replace (S n - 1)%nat with n by lia.
  replace (1 <? S n)%nat with true by (symmetry; apply Nat.ltb_lt; lia).
  replace (k =? n)%nat with false by (symmetry; apply Nat.eqb_neq; lia).
  reflexivity.
Qed.

(** X3.  The half-open axis of [N] points is the closed axis of [N + 1]
    points without its last point. *)
Theorem X3_open_axis_is_closed_prefix (T : R) (N : Z) :
  0 < T -> (0 < N)%Z ->
  exists a b : list float,
    make_time_axis (Fin T) N false = Ok a
    /\ make_time_axis (Fin T) (N + 1) true = Ok b
    /\ a = removelast b.
Proof.
  intros HT HN.
  exists (fins (Exact.np.linspace 0 T (Z.to_nat N) false)).
  exists (fins (Exact.np.linspace 0 T (Z.to_nat (N + 1)) true)).
  rewrite !make_time_axis_fin, !make_time_axis_ok by (lra || lia).
  split; [reflexivity|]. split; [reflexivity|].
  replace (Z.to_nat (N + 1)) with (S (Z.to_nat N)) by lia.
  rewrite linspace_open_closed by lia.
  unfold fins. set (l := Exact.np.linspace 0 T (S (Z.to_nat N)) true).
  clearbody l. clear. induction l as [|x [|y r] IH]; try reflexivity.
  change (removelast (x :: y :: r)) with (x :: removelast (y :: r)).
  cbn [map]. change (Fin y :: map Fin r) with (map Fin (y :: r)).
  now rewrite IH.
Qed.

Lemma X3_open_axis_is_closed_prefix_witness :
  exists a b : list float,
    make_time_axis (Fin 2) 4 false = Ok a
    /\ make_time_axis (Fin 2) (4 + 1) true = Ok b
    /\ a = removelast b.
Proof. apply (X3_open_axis_is_closed_prefix 2 4); [lra | lia]. Defined.

End TimeAxisMore.

(** ** [waveform_to_lut] on arbitrary floats *)

Section NormalizerMore.

Lemma fabs_not_neg_inf (x : float) : fabs x <> Inf true.
Proof. destruct x as [r | s |]; discriminate. Qed.

Lemma isfinite_fabs (x : float) : isfinite (fabs x) = isfinite x.
Proof. now destruct x. Qed.

Lemma fmaximum_not_neg_inf (x y : float) :
  x <> Inf true -> y <> Inf true -> fmaximum x y <> Inf true.
Proof.
  destruct x as [a | [|] |], y as [b | [|] |]; cbn [fmaximum fle];
    intros Hx Hy; try congruence; try discriminate.
  - destruct (Rleb a b); discriminate.
Qed.

(** Among values that are not [-inf], a finite maximum has finite
    arguments: [+inf] and NaN win. *)
Lemma fmaximum_finite_inv (x y : float) :
  x <> Inf true -> y <> Inf true -> isfinite (fmaximum x y) = true ->
  isfinite x = true /\ isfinite y = true.
Proof.
  destruct x as [a | [|] |], y as [b | [|] |]; cbn [fmaximum fle isfinite];
    intros Hx Hy H; try congruence; try discriminate H; auto.
Qed.

Lemma fold_fmaximum_finite_inv (xs : list float) (x : float) :
  x <> Inf true -> Forall (fun y => y <> Inf true) xs ->
  isfinite (fold_left fmaximum xs x) = true ->
  isfinite x = true /\ all_finite xs.
Proof.
  intros Hx Hxs. revert x Hx.
  induction Hxs as [|y ys Hy _ IH]; intros x Hx H; cbn [fold_left] in H.
  - split; [exact H | constructor].
  - destruct (IH (fmaximum x y) (fmaximum_not_neg_inf x y Hx Hy) H)
      as [Hm Hys].
    destruct (fmaximum_finite_inv x y Hx Hy Hm) as [Fx Fy].
    split; [exact Fx | now constructor].
Qed.

(** A finite peak means that every sample is finite. *)
Lemma peak_of_finite_inv (wave : list float) :
  isfinite (peak_of wave) = true -> all_finite wave.
Proof.
  destruct wave as [|x xs]; [constructor|].
  cbn [peak_of np.abs np.max map]. intros H.
  apply fold_fmaximum_finite_inv in H.
  - destruct H as [Hx Hxs]. rewrite isfinite_fabs in Hx.
    constructor; [exact Hx|].
    unfold all_finite in *. rewrite Forall_forall in *. intros y Hy.
    rewrite <- isfinite_fabs. apply Hxs. now apply in_map.
  - apply fabs_not_neg_inf.
  - apply Forall_forall. intros y Hy. apply in_map_iff in Hy.
    destruct Hy as [z [<- _]]. apply fabs_not_neg_inf.
Qed.

Lemma peak_guard_false (wave : list float) :
  peak_guard (peak_of wave) = false ->
  exists w : list R, wave = fins w /\ 0 < Exact.peak_of w.
Proof.
  unfold peak_guard. intros H. apply orb_false_elim in H.
  destruct H as [Hf Hle]. apply negb_false_iff in Hf.
  destruct (all_finite_fins wave (peak_of_finite_inv wave Hf)) as [w ->].
  exists w. split; [reflexivity|].
  rewrite peak_of_fin in Hle. cbn [fle] in Hle. now apply Rleb_false.
Qed.

(** A successful peak normalisation, whatever the clip flag: the samples
    were finite with a positive peak and each one was divided by it. *)
Lemma waveform_to_lut_peak_ok (wave lut : list float) (s : string)
    (clip : bool) :
  is_peak s -> waveform_to_lut wave s clip = Ok lut ->
  exists w : list R,
    wave = fins w /\ 0 < Exact.peak_of w
    /\ lut = fins (Exact.np.divide w (Exact.peak_of w)).
Proof.
  intros Hs H. rewrite waveform_to_lut_peak_float in H by exact Hs.
  destruct (peak_guard (peak_of wave)) eqn:Hg; [discriminate H|].
  destruct (peak_guard_false wave Hg) as [w [-> Hpos]].
  exists w. split; [reflexivity|]. split; [exact Hpos|].
  injection H as <-. rewrite peak_of_fin, divide_fin by lra.
  destruct clip; [|reflexivity].
  rewrite clip_fin, clip_unit_id; [reflexivity|].
  now apply divide_peak_range.
Qed.

Lemma clip_value_unit_or_nan (x : float) :
  unit_or_nan (fminimum (fmaximum x (Fin (-1))) (Fin 1)).
Proof.
  unfold unit_or_nan. destruct x as [r | [|] |]; [right | right | right | now left].
  - rewrite fmaximum_fin, fminimum_fin. eexists. split; [reflexivity|].
    unfold Rmin, Rmax. destruct (Rle_dec r (-1)); destruct (Rle_dec _ 1); lra.
  - cbn [fmaximum fle]. rewrite fminimum_fin. eexists. split; [reflexivity|].
    unfold Rmin. destruct (Rle_dec (-1) 1); lra.
  - cbn [fmaximum fminimum fle]. exists 1. split; [reflexivity | lra].
Qed.

(** X4.  Whatever the floats of the input are, a result returned with
    clipping has the length of the input and holds only NaN or finite values
    of [[-1, 1]] (infinities are clamped, NaN passes through); with the
    "peak" strategy it holds finite values of [[-1, 1]] only. *)
Theorem X4_clipped_output_range (wave lut : list float) (s : string) :
  waveform_to_lut wave s true = Ok lut ->
  List.length lut = List.length wave
  /\ Forall unit_or_nan lut
  /\ (is_peak s ->
      Forall (fun x => exists r, x = Fin r /\ -1 <= r <= 1) lut).
Proof.
  intros H. destruct (is_peak_dec s) as [Hp | Hnp].
  - destruct (waveform_to_lut_peak_ok wave lut s true Hp H)
      as [w [-> [Hpos ->]]].
    pose proof (divide_peak_range w Hpos) as Hr.
    assert (Hfin : Forall (fun x => exists r, x = Fin r /\ -1 <= r <= 1)
                     (fins (Exact.np.divide w (Exact.peak_of w)))).
    { apply Forall_forall. intros x Hx. apply in_map_iff in Hx.
      destruct Hx as [r [<- Hr']]. exists r. split; [reflexivity|].
      rewrite Forall_forall in Hr. now apply Hr. }
    split; [|split; [|intros _; exact Hfin]].
    + unfold fins, Exact.np.divide. now rewrite !length_map.
    + eapply Forall_impl; [|exact Hfin]. intros x Hx. now right.
  - destruct (is_passthrough_dec s) as [Hn | Hnn].
    + rewrite waveform_to_lut_passthrough_float in H by exact Hn.
      injection H as <-. split; [apply length_map|].
      split; [|intros Hp; contradiction].
      apply Forall_forall. intros x Hx. unfold np.clip in Hx.
      apply in_map_iff in Hx. destruct Hx as [y [<- _]].
      apply clip_value_unit_or_nan.
    + rewrite waveform_to_lut_unsupported_float in H by assumption.
      discriminate H.
Qed.

Lemma X4_clipped_output_range_witness :
  List.length [Fin 1; NaN] = List.length [Inf false; NaN]
  /\ Forall unit_or_nan [Fin 1; NaN]
  /\ (is_peak "none" ->
      Forall (fun x => exists r, x = Fin r /\ -1 <= r <= 1) [Fin 1; NaN]).
Proof.
  apply (X4_clipped_output_range [Inf false; NaN] [Fin 1; NaN] "none").
  reflexivity.
Defined.

(** X5.  Under the "peak" strategy one sample that is an infinity or NaN
    is enough for the normalisation error. *)
Theorem X5_nonfinite_sample_fails (wave : list float) (s : string)
    (clip : bool) :
  is_peak s -> Exists (fun x => isfinite x = false) wave ->
  fails_with (waveform_to_lut wave s clip) NormalizationError.
Proof.
  intros Hs Hex. rewrite waveform_to_lut_peak_float by exact Hs.
  destruct (peak_guard (peak_of wave)) eqn:Hg;
    [apply fails_with_Raise; reflexivity|].
  exfalso. destruct (peak_guard_false wave Hg) as [w [-> _]].
  apply Exists_exists in Hex. destruct Hex as [x [Hx Hnf]].
  apply in_map_iff in Hx. destruct Hx as [r [<- _]]. discriminate Hnf.
Qed.

Lemma X5_nonfinite_sample_fails_witness :
  fails_with (waveform_to_lut [Fin 1; NaN; Fin 2] " Peak" false)
             NormalizationError.
Proof.
  apply (X5_nonfinite_sample_fails [Fin 1; NaN; Fin 2] " Peak" false).
  - reflexivity.
  - apply Exists_cons_tl, Exists_cons_hd. reflexivity.
Defined.

(** X6.  Peak normalisation is idempotent: a LUT it returned is returned
    unchanged when normalised again, with either clip flag. *)
Theorem X6_peak_idempotent (wave lut : list float) (s : string)
    (clip clip' : bool) :
  is_peak s -> waveform_to_lut wave s clip = Ok lut ->
  waveform_to_lut lut s clip' = Ok lut.
Proof.
  intros Hs H.
  destruct (waveform_to_lut_peak_ok wave lut s clip Hs H)
    as [w [-> [Hpos ->]]].
  rewrite waveform_to_lut_fin, waveform_to_lut_peak by exact Hs.
  rewrite (divide_peak_peak w Hpos).
  replace (Rleb 1 0) with false by (symmetry; apply Rleb_false; lra).
  rewrite divide_one. unfold clipped. destruct clip'; [|reflexivity].
  now rewrite clip_unit_id by (now apply divide_peak_range).
Qed.

Lemma X6_peak_idempotent_witness :
  waveform_to_lut [Fin 1] "peak" true = Ok [Fin 1].
Proof.
  apply (X6_peak_idempotent [Fin 2] [Fin 1] "peak" false true).
  - reflexivity.
  - change [Fin 2] with (fins [2]).
    rewrite waveform_to_lut_fin, waveform_to_lut_peak by reflexivity.
    assert (Hp : Exact.peak_of [2] = 2) by (simpl; apply Rabs_pos_eq; lra).
    rewrite Hp.
    replace (Rleb 2 0) with false by (symmetry; apply Rleb_false; lra).
    unfold clipped, Exact.np.divide, fins. simpl.
    replace (2 / 2) with 1 by field. reflexivity.
Defined.

End NormalizerMore.

Section NormalizerSymmetry.

Lemma fabs_fneg (x : float) : fabs (fneg x) = fabs x.
Proof. destruct x as [r | s |]; cbn; try reflexivity. now rewrite Rabs_Ropp. Qed.

Lemma peak_of_fneg (wave : list float) :
  peak_of (map fneg wave) = peak_of wave.
Proof.
  destruct wave as [|x xs]; [reflexivity|].
  change (peak_of (map fneg (x :: xs)))
    with (np.max (np.abs (map fneg (x :: xs)))).
  change (peak_of (x :: xs)) with (np.max (np.abs (x :: xs))).
  f_equal. unfold np.abs. rewrite map_map. apply map_ext, fabs_fneg.
Qed.

Lemma fdiv_fneg (x : float) (p : R) :
  0 < p -> fdiv (fneg x) (Fin p) = fneg (fdiv x (Fin p)).
Proof.
  intros Hp. destruct x as [a | s |]; cbn [fneg]; [| |reflexivity].
  - rewrite !fdiv_fin by lra. cbn [fneg]. f_equal. field. lra.
  - cbn [fdiv fneg].
    replace (Rltb p 0) with false by (symmetry; apply Rltb_false; lra).
    now rewrite !xorb_false_r.
Qed.

Lemma Rclip_opp (a : R) :
  Rmin (Rmax (- a) (-1)) 1 = - Rmin (Rmax a (-1)) 1.
Proof.
  unfold Rmin, Rmax.
  destruct (Rle_dec (- a) (-1)), (Rle_dec a (-1));
    repeat match goal with
           | |- context [Rle_dec ?u ?v] => destruct (Rle_dec u v)
           end; lra.
Qed.

Lemma clip_value_fneg (x : float) :
  fminimum (fmaximum (fneg x) (Fin (-1))) (Fin 1)
  = fneg (fminimum (fmaximum x (Fin (-1))) (Fin 1)).
Proof.
  destruct x as [a | [|] |]; [| | |reflexivity].
  - cbn [fneg]. rewrite !fmaximum_fin, !fminimum_fin. cbn [fneg].
    f_equal. apply Rclip_opp.
  - cbn [fmaximum fminimum fle fneg negb]. unfold Rleb.
    destruct (Rle_dec (-1) 1); cbn [fneg]; f_equal; lra.
  - cbn [fmaximum fminimum fle fneg negb]. unfold Rleb.
    destruct (Rle_dec (-1) 1); cbn [fneg]; f_equal; lra.
Qed.

Lemma clip_fneg (a : list float) :
  np.clip (map fneg a) (Fin (-1)) (Fin 1)
  = map fneg (np.clip a (Fin (-1)) (Fin 1)).
Proof.
  unfold np.clip. rewrite !map_map. apply map_ext, clip_value_fneg.
Qed.

(** X7.  The normaliser is odd: negating every sample negates every value
    of the result and changes nothing else, for every strategy, either clip
    flag and every float input; failures are the same. *)
Theorem X7_normalizer_odd (wave : list float) (s : string) (clip : bool) :
  waveform_to_lut (map fneg wave) s clip
  = result_map (map fneg) (waveform_to_lut wave s clip).
Proof.
  destruct (is_peak_dec s) as [Hp | Hnp].
  - rewrite !waveform_to_lut_peak_float by exact Hp.
    rewrite peak_of_fneg.
    destruct (peak_guard (peak_of wave)) eqn:Hg; [reflexivity|].
    destruct (peak_guard_false wave Hg) as [w [Ew Hpos]].
    assert (Epk : peak_of wave = Fin (Exact.peak_of w))
      by (rewrite Ew; apply peak_of_fin).
    rewrite Epk. cbn [result_map]. f_equal.
    assert (Hd : np.divide (map fneg wave) (Fin (Exact.peak_of w))
                 = map fneg (np.divide wave (Fin (Exact.peak_of w)))).
    { unfold np.divide. rewrite !map_map. apply map_ext. intros x.
      now apply fdiv_fneg. }
    rewrite Hd. destruct clip; [apply clip_fneg | reflexivity].
  - destruct (is_passthrough_dec s) as [Hn | Hnn].
    + rewrite !waveform_to_lut_passthrough_float by exact Hn.
      cbn [result_map]. f_equal.
      destruct clip; [apply clip_fneg | reflexivity].
    + now rewrite !waveform_to_lut_unsupported_float by assumption.
Qed.

End NormalizerSymmetry.

(** ** Strategy and value strings *)

Section Strings.

Lemma isspace_lower_ascii (c : ascii) : isspace (lower_ascii c) = isspace c.
Proof. destruct c as [[] [] [] [] [] [] [] []]; reflexivity. Qed.

Lemma lower_ascii_idem (c : ascii) :
  lower_ascii (lower_ascii c) = lower_ascii c.
Proof. destruct c as [[] [] [] [] [] [] [] []]; reflexivity. Qed.

Lemma lower_idem (s : string) : lower (lower s) = lower s.
Proof.
  induction s as [|c r IH]; [reflexivity|].
  cbn [lower]. now rewrite lower_ascii_idem, IH.
Qed.

Lemma lower_lstrip (s : string) : lower (lstrip s) = lstrip (lower s).
Proof.
  induction s as [|c r IH]; [reflexivity|].
  cbn [lower lstrip]. rewrite isspace_lower_ascii.
  destruct (isspace c); [exact IH | reflexivity].
Qed.

Lemma lower_rstrip (s : string) : lower (rstrip s) = rstrip (lower s).
Proof.
  induction s as [|c r IH]; [reflexivity|].
  cbn [lower rstrip]. rewrite <- IH, isspace_lower_ascii.
  destruct (rstrip r) as [|d r']; cbn [lower].
  - destruct (isspace c); reflexivity.
  - reflexivity.
Qed.

(** Lowering and stripping commute. *)
Lemma lower_strip (s : string) : lower (strip s) = strip (lower s).
Proof. unfold strip. now rewrite lower_rstrip, lower_lstrip. Qed.

Lemma rstrip_idem (s : string) : rstrip (rstrip s) = rstrip s.
Proof.
  induction s as [|c r IH]; [reflexivity|].
  cbn [rstrip]. destruct (rstrip r) as [|d r'] eqn:E.
  - destruct (isspace c) eqn:Hc; [reflexivity|].
    cbn [rstrip]. now rewrite Hc.
  - change (rstrip (String c (String d r')))
      with (match rstrip (String d r') with
            | EmptyString =>
                if isspace c then EmptyString else String c EmptyString
            | String x y => String c (String x y)
            end).
    now rewrite IH.
Qed.

Lemma head_lstrip (s : string) (c : ascii) :
  head_char (lstrip s) = Some c -> isspace c = false.
Proof.
  induction s as [|d r IH]; [discriminate|].
  cbn [lstrip]. destruct (isspace d) eqn:Hd; [exact IH|].
  cbn [head_char]. intros E. injection E as <-. exact Hd.
Qed.

Lemma head_rstrip (s : string) (c : ascii) :
  head_char s = Some c -> isspace c = false ->
  head_char (rstrip s) = Some c.
Proof.
  destruct s as [|d r]; [discriminate|].
  cbn [head_char]. intros E Hc. injection E as ->.
  cbn [rstrip]. destruct (rstrip r); [now rewrite Hc | reflexivity].
Qed.

Lemma head_rstrip_inv (s : string) (c : ascii) :
  head_char (rstrip s) = Some c -> head_char s = Some c.
Proof.
  destruct s as [|d r]; [discriminate|].
  cbn [rstrip]. destruct (rstrip r).
  - destruct (isspace d); [discriminate | exact (fun E => E)].
  - exact (fun E => E).
Qed.

Lemma lstrip_fixed (s : string) :
  (forall c, head_char s = Some c -> isspace c = false) -> lstrip s = s.
Proof.
  destruct s as [|d r]; [reflexivity|].
  intros H. cbn [lstrip]. now rewrite (H d eq_refl).
Qed.



(** Stripping is idempotent. *)
Lemma strip_idem (s : string) : strip (strip s) = strip s.
Proof.
  unfold strip. rewrite (lstrip_fixed (rstrip (lstrip s))).
  - apply rstrip_idem.
  - intros c Hc. apply head_rstrip_inv in Hc. now apply head_lstrip in Hc.
Qed.

Lemma strip_lower_idem (s : string) :
  strip (lower (strip (lower s))) = strip (lower s).
Proof. now rewrite <- lower_strip, strip_idem, lower_strip, lower_idem. Qed.

Lemma rstrip_all_space (s : string) :
  all_space s = true -> rstrip s = EmptyString.
Proof.
  induction s as [|c r IH]; [reflexivity|].
  cbn [all_space rstrip]. intros H. apply andb_prop in H.
  destruct H as [Hc Hr]. now rewrite (IH Hr), Hc.
Qed.

Lemma rstrip_append_space (s t : string) :
  all_space t = true -> rstrip (s ++ t) = rstrip s.
Proof.
  intros Ht. induction s as [|c r IH].
  - cbn [append]. now rewrite rstrip_all_space.
  - cbn [append rstrip]. now rewrite IH.
Qed.

Lemma lstrip_append_space (s t : string) :
  all_space s = true -> lstrip (s ++ t) = lstrip t.
Proof.
  induction s as [|c r IH]; [reflexivity|].
  cbn [all_space append lstrip]. intros H. apply andb_prop in H.
  destruct H as [Hc Hr]. rewrite Hc. now apply IH.
Qed.

Lemma lstrip_append (s t : string) :
  all_space s = false -> lstrip (s ++ t) = (lstrip s ++ t)%string.
Proof.
  induction s as [|c r IH]; [discriminate|].
  cbn [all_space append lstrip]. destruct (isspace c); [exact IH|].
  reflexivity.
Qed.

Lemma all_space_lstrip (s : string) :
  all_space s = true -> lstrip s = EmptyString.
Proof.
  induction s as [|c r IH]; [reflexivity|].
  cbn [all_space lstrip]. intros H. apply andb_prop in H.
  destruct H as [Hc Hr]. rewrite Hc. now apply IH.
Qed.

(** Blanks around a string do not survive [strip]. *)
Lemma strip_padded (a s b : string) :
  all_space a = true -> all_space b = true ->
  strip (a ++ s ++ b) = strip s.
Proof.
  intros Ha Hb. unfold strip. rewrite lstrip_append_space by exact Ha.
  destruct (all_space s) eqn:Hs.
  - rewrite lstrip_append_space by exact Hs.
    rewrite (all_space_lstrip s Hs), (all_space_lstrip b Hb). reflexivity.
  - rewrite lstrip_append by exact Hs. now apply rstrip_append_space.
Qed.

Lemma lower_append (s t : string) :
  lower (s ++ t) = (lower s ++ lower t)%string.
Proof.
  induction s as [|c r IH]; [reflexivity|].
  cbn [append lower]. now rewrite IH.
Qed.

Lemma all_space_lower (s : string) : all_space (lower s) = all_space s.
Proof.
  induction s as [|c r IH]; [reflexivity|].
  cbn [lower all_space]. now rewrite isspace_lower_ascii, IH.
Qed.

(** X8.  The strategy is matched without regard to letter case or to white
    space around it: lowering the string, stripping it, or padding it with
    white space on either side gives the same result. *)
Theorem X8_strategy_case_and_blanks (wave : list float) (s a b : string)
    (clip : bool) :
  waveform_to_lut wave (lower s) clip = waveform_to_lut wave s clip
  /\ waveform_to_lut wave (strip s) clip = waveform_to_lut wave s clip
  /\ (all_space a = true -> all_space b = true ->
      waveform_to_lut wave (a ++ s ++ b) clip = waveform_to_lut wave s clip).
Proof.
  unfold waveform_to_lut. split; [|split].
  - now rewrite lower_idem.
  - now rewrite lower_strip, strip_idem.
  - intros Ha Hb. rewrite !lower_append, strip_padded;
      [reflexivity | now rewrite all_space_lower ..].
Qed.

End Strings.

(** ** [gaussian_pulse] *)

Section PulseMore.

Lemma exp_le_compat (x y : R) : x <= y -> exp x <= exp y.
Proof.
  intros [Hlt | ->]; [left; now apply exp_increasing | right; reflexivity].
Qed.








(** X10.  The pulse is symmetric about its centre, and the sign of
    [sigma_s] does not matter. *)
Theorem X10_pulse_symmetry (c d t sigma amp : R) :
  sigma <> 0 ->
  gaussian_at (Fin (c + d)) (Fin c) (Fin sigma) (Fin amp)
  = gaussian_at (Fin (c - d)) (Fin c) (Fin sigma) (Fin amp)
  /\ gaussian_at (Fin t) (Fin c) (Fin (- sigma)) (Fin amp)
     = gaussian_at (Fin t) (Fin c) (Fin sigma) (Fin amp).
Proof.
  intros Hs.
  assert (Hs' : - sigma <> 0) by lra.
  rewrite !gaussian_at_fin by assumption.
  split; do 4 f_equal; field; exact Hs.
Qed.

Lemma X10_pulse_symmetry_witness :
  gaussian_at (Fin (1 + 2)) (Fin 1) (Fin 4) (Fin 5)
  = gaussian_at (Fin (1 - 2)) (Fin 1) (Fin 4) (Fin 5)
  /\ gaussian_at (Fin 0) (Fin 1) (Fin (- 4)) (Fin 5)
     = gaussian_at (Fin 0) (Fin 1) (Fin 4) (Fin 5).
Proof. apply (X10_pulse_symmetry 1 2 0 4 5). lra. Defined.

(** X11.  The pulse decays away from its centre: of two finite samples the
    one farther from the centre has the smaller magnitude (or the same). *)
Theorem X11_pulse_decay (c sigma amp t1 t2 : R) :
  sigma <> 0 -> Rabs (t1 - c) <= Rabs (t2 - c) ->
  exists v1 v2 : R,
    gaussian_at (Fin t1) (Fin c) (Fin sigma) (Fin amp) = Fin v1
    /\ gaussian_at (Fin t2) (Fin c) (Fin sigma) (Fin amp) = Fin v2
    /\ Rabs v2 <= Rabs v1.
Proof.
  intros Hs Hd. rewrite !gaussian_at_fin by exact Hs.
  do 2 eexists. split; [reflexivity|]. split; [reflexivity|].
  rewrite !Rabs_mult.
  set (q1 := (t1 - c) / sigma). set (q2 := (t2 - c) / sigma).
  assert (Hq : q1 * q1 <= q2 * q2).
  { apply Rsqr_le_abs_1 in Hd. unfold Rsqr in Hd. unfold q1, q2, Rdiv.
    assert (Hi : 0 <= / sigma * / sigma)
      by (pose proof (Rle_0_sqr (/ sigma)) as H; unfold Rsqr in H; exact H).
    replace ((t1 - c) * / sigma * ((t1 - c) * / sigma))
      with ((t1 - c) * (t1 - c) * (/ sigma * / sigma)) by ring.
    replace ((t2 - c) * / sigma * ((t2 - c) * / sigma))
      with ((t2 - c) * (t2 - c) * (/ sigma * / sigma)) by ring.
    now apply Rmult_le_compat_r. }
  assert (He : exp (- (1 / 2) * (q2 * q2)) <= exp (- (1 / 2) * (q1 * q1)))
    by (apply exp_le_compat; lra).
  pose proof (exp_pos (- (1 / 2) * (q1 * q1))) as H1.
  pose proof (exp_pos (- (1 / 2) * (q2 * q2))) as H2.
  rewrite !(Rabs_pos_eq (exp _)) by lra.
  apply Rmult_le_compat_l; [apply Rabs_pos | exact He].
Qed.

Lemma X11_pulse_decay_witness :
  exists v1 v2 : R,
    gaussian_at (Fin 2) (Fin 1) (Fin 4) (Fin 5) = Fin v1
    /\ gaussian_at (Fin 3) (Fin 1) (Fin 4) (Fin 5) = Fin v2
    /\ Rabs v2 <= Rabs v1.
Proof.
  apply (X11_pulse_decay 1 4 5 2 3); [lra|].
  rewrite !Rabs_pos_eq by lra. lra.
Defined.

(** X12.  [gaussian_pulse] does not raise on [sigma_s = 0]: with finite
    samples, centre and amplitude a sample on the centre becomes NaN and
    every other sample becomes [0]. *)
Theorem X12_pulse_zero_sigma (t_s : list R) (c amp : R) :
  gaussian_pulse (fins t_s) (Fin c) (Fin 0) (Fin amp)
  = map (fun t => if Reqb t c then NaN else Fin 0) t_s.
Proof.
  unfold gaussian_pulse, fins. rewrite map_map. apply map_ext. intros t.
  unfold gaussian_at. cbn [fsub fneg fadd]. unfold fdiv.
  replace (Reqb 0 0) with true by (symmetry; now apply Reqb_true).
  destruct (Req_dec_T t c) as [E | NE].
  - replace (Reqb t c) with true by (symmetry; now apply Reqb_true).
    replace (Reqb (t + - c) 0) with true
      by (symmetry; apply Reqb_true; lra).
    reflexivity.
  - replace (Reqb t c) with false by (symmetry; now apply Reqb_false).
    replace (Reqb (t + - c) 0) with false
      by (symmetry; apply Reqb_false; lra).
    cbn [fmul]. rewrite xorb_nilpotent.
    replace (Reqb (- (1 / 2)) 0) with false
      by (symmetry; apply Reqb_false; lra).
    replace (Rltb (- (1 / 2)) 0) with true
      by (symmetry; apply Rltb_true; lra).
    cbn [xorb fexp fmul]. f_equal. ring.
Qed.

End PulseMore.

(** ** [build_gaussian_ramsey_lut] *)

Section RamseyMoreExact.

Import Exact.

Lemma ramsey_sample_scale (c1 c2 sigma c a t : R) :
  ramsey_sample c1 c2 sigma (c * a) t = c * ramsey_sample c1 c2 sigma a t.
Proof. unfold ramsey_sample. ring. Qed.


(** A positive factor on the amplitude is normalised away. *)
Lemma exact_ramsey_amp_scale (p : RamseyParams) (N : Z) (sigma_frac c a : R) :
  0 < c ->
  build_gaussian_ramsey_lut p N sigma_frac (c * a)
  = build_gaussian_ramsey_lut p N sigma_frac a.
Proof.
  intros Hc. unfold build_gaussian_ramsey_lut.
  destruct (Reqb (2 * tau_s p + 2 * t_pi2_s p) 0); [reflexivity|].
  destruct (make_time_axis _ N false) as [t_s | e]; [|reflexivity].
  cbn [bind]. destruct (Reqb (sigma_frac * t_pi2_s p) 0); [reflexivity|].
  match goal with
  | |- context [map (ramsey_sample ?c1 ?c2 ?s (c * a)) t_s] =>
      replace (map (ramsey_sample c1 c2 s (c * a)) t_s)
        with (map (Rmult c) (map (ramsey_sample c1 c2 s a) t_s))
        by (rewrite map_map; apply map_ext; intros t;
            symmetry; apply ramsey_sample_scale)
  end.
  rewrite (waveform_to_lut_scale c _ "peak" true Hc); reflexivity.
Qed.





End RamseyMoreExact.

Section RamseyMore.





(** X15.  Only the sign of the amplitude reaches the result: multiplying
    [amp] by a factor [c > 0] changes neither the LUT nor any failure. *)
Theorem X15_ramsey_amp_scale (p : Exact.RamseyParams) (N : Z)
    (sigma_frac c amp : R) :
  0 < c ->
  build_gaussian_ramsey_lut (fin_ramsey p) N (Fin sigma_frac) (Fin (c * amp))
  = build_gaussian_ramsey_lut (fin_ramsey p) N (Fin sigma_frac) (Fin amp).
Proof.
  intros Hc. rewrite !build_gaussian_ramsey_lut_fin.
  now rewrite exact_ramsey_amp_scale.
Qed.

Lemma X15_ramsey_amp_scale_witness :
  build_gaussian_ramsey_lut (mkRamseyParams (Fin 1) (Fin 4)) 8
                            (Fin (1 / 4)) (Fin (7 * 1))
  = build_gaussian_ramsey_lut (mkRamseyParams (Fin 1) (Fin 4)) 8
                              (Fin (1 / 4)) (Fin 1).
Proof.
  apply (X15_ramsey_amp_scale (Exact.mkRamseyParams 1 4) 8 (1 / 4) 7 1). lra.
Defined.




End RamseyMore.

(** ** [build_square_lut] *)

Section SquareMoreExact.

Import Exact.









End SquareMoreExact.

Section SquareMore.








End SquareMore.

Section SquareLevelsExact.

Import Exact.




End SquareLevelsExact.

Section SquareLevels.





End SquareLevels.

(** ** [config_uitl.py] *)

Section Config.

Lemma eqb_empty_false (raw : string) :
  raw <> EmptyString -> String.eqb raw "" = false.
Proof. intros H. now apply String.eqb_neq. Qed.


Lemma lstrip_empty (s : string) :
  lstrip s = EmptyString -> all_space s = true.
Proof.
  induction s as [|c r IH]; [reflexivity|].
  cbn [lstrip all_space]. destruct (isspace c); [exact IH | discriminate].
Qed.

Lemma rstrip_empty_head (s : string) (c : ascii) :
  head_char s = Some c -> isspace c = false -> rstrip s <> EmptyString.
Proof.
  intros Hh Hc E. pose proof (head_rstrip s c Hh Hc) as H.
  rewrite E in H. discriminate H.
Qed.

Lemma strip_empty_iff (s : string) :
  strip s = EmptyString <-> all_space s = true.
Proof.
  unfold strip. split.
  - intros E. apply lstrip_empty.
    destruct (lstrip s) as [|c r] eqn:El; [reflexivity|].
    exfalso. apply (rstrip_empty_head (String c r) c eq_refl); [|exact E].
    apply (head_lstrip s). now rewrite El.
  - intros H. now rewrite (all_space_lstrip s H).
Qed.


Lemma get_env_bool_set (env : environ) (name raw : string) (default : bool) :
  env name = Some raw -> raw <> EmptyString ->
  get_env_bool env name default =
  if str_in (lower (strip raw)) _TRUE then inl true
  else if str_in (lower (strip raw)) _FALSE then inl false
  else inr (Invalid_boolean name (strip raw)).
Proof.
  intros E Hne. unfold get_env_bool, get_env_str.
  now rewrite E, (eqb_empty_false raw Hne).
Qed.



(** X25.  A value of white space only is not "empty": [get_env_bool]
    raises on it instead of returning the default. *)
Theorem X25_get_env_bool_blank (env : environ) (name raw : string)
    (default : bool) :
  env name = Some raw -> raw <> EmptyString -> all_space raw = true ->
  get_env_bool env name default = inr (Invalid_boolean name EmptyString).
Proof.
  intros E Hne Hsp. rewrite (get_env_bool_set env name raw default E Hne).
  apply strip_empty_iff in Hsp. rewrite Hsp. reflexivity.
Qed.

Lemma X25_get_env_bool_blank_witness :
  get_env_bool (setenv "PLOT_WAVEFORMS" "  " (fun _ => None))
               "PLOT_WAVEFORMS" true
  = inr (Invalid_boolean "PLOT_WAVEFORMS" EmptyString).
Proof.
  apply (X25_get_env_bool_blank
           (setenv "PLOT_WAVEFORMS" "  " (fun _ => None))
           "PLOT_WAVEFORMS" "  " true).
  - reflexivity.
  - discriminate.
  - reflexivity.
Defined.

Lemma setenv_same (name value : string) (env : environ) :
  setenv name value env name = Some value.
Proof. unfold setenv. now rewrite String.eqb_refl. Qed.

Lemma append_nonempty (a s b : string) :
  s <> EmptyString -> (a ++ s ++ b)%string <> EmptyString.
Proof.
  intros Hs. destruct a as [|c a]; [|discriminate].
  destruct s as [|d s]; [congruence | discriminate].
Qed.

Lemma lower_nonempty (s : string) :
  s <> EmptyString -> lower s <> EmptyString.
Proof. destruct s; [congruence | discriminate]. Qed.

(** X26.  The boolean spellings are read without regard to letter case or
    to white space around them: lowering the value, or padding it with
    white space, gives the same boolean. *)
Theorem X26_get_env_bool_case_and_blanks (env : environ)
    (name raw a b : string) (default r : bool) :
  raw <> EmptyString -> all_space a = true -> all_space b = true ->
  (get_env_bool (setenv name (lower raw) env) name default = inl r
   <-> get_env_bool (setenv name raw env) name default = inl r)
  /\ (get_env_bool (setenv name (a ++ raw ++ b) env) name default = inl r
      <-> get_env_bool (setenv name raw env) name default = inl r).
Proof.
  intros Hne Ha Hb.
  rewrite (get_env_bool_set _ name raw default (setenv_same _ _ _) Hne).
  rewrite (get_env_bool_set _ name (lower raw) default (setenv_same _ _ _)
             (lower_nonempty raw Hne)).
  rewrite (get_env_bool_set _ name (a ++ raw ++ b) default
             (setenv_same _ _ _) (append_nonempty a raw b Hne)).
  rewrite <- lower_strip, lower_idem.
  rewrite (strip_padded a raw b Ha Hb).
  split.
  - destruct (str_in _ _TRUE); [tauto|].
    destruct (str_in _ _FALSE); [tauto|].
    split; intros H; discriminate H.
  - destruct (str_in _ _TRUE); [tauto|].
    destruct (str_in _ _FALSE); [tauto|].
    split; intros H; discriminate H.
Qed.

Lemma X26_get_env_bool_case_and_blanks_witness :
  (get_env_bool (setenv "PLOT" (lower "Yes") (fun _ => None)) "PLOT" false
   = inl true
   <-> get_env_bool (setenv "PLOT" "Yes" (fun _ => None)) "PLOT" false
       = inl true)
  /\ (get_env_bool (setenv "PLOT" (" " ++ "Yes" ++ " ") (fun _ => None))
                   "PLOT" false = inl true
      <-> get_env_bool (setenv "PLOT" "Yes" (fun _ => None)) "PLOT" false
          = inl true).
Proof.
  apply (X26_get_env_bool_case_and_blanks (fun _ => None) "PLOT" "Yes"
           " " " " false true).
  - discriminate.
  - reflexivity.
  - reflexivity.
Defined.

End Config.
